(** * Authorization and token lifecycle of the dashboard backend

    A shallow embedding of
    - [backend/config/roles.js]          (role / permission registry),
    - [backend/middleware/authorize.js]  (authorization gates),
    - [backend/middleware/authenticate.js] (strict and optional authentication),
    - [backend/routes/auth.js]           (refresh-token rotation),
    - [backend/middleware/rateLimiter.js] (login limiter and its 429 body),
    followed by the properties established about them. *)

From Stdlib Require Import ZArith Ascii String List Bool Lia.
From stdpp Require Import base gmap sets strings list pretty.
Import ListNotations.

Local Open Scope string_scope.
Local Open Scope Z_scope.

(** ** JavaScript values the code relies on *)

Module Js.

(** What a JS function call can do: return a value or throw. *)
Record error := Err { name : string; message : string }.

Inductive result (A : Type) :=
| Return (a : A)
| Throw (e : error).
Arguments Return {A} a.
Arguments Throw {A} e.

(** The properties every object literal [{...}] inherits from
    [Object.prototype].  A lookup [obj[k]] on a plain object falls back to
    them when [k] is not an own property. *)
Definition object_prototype_keys : list string :=
  [ "constructor"; "__defineGetter__"; "__defineSetter__"; "hasOwnProperty";
    "__lookupGetter__"; "__lookupSetter__"; "isPrototypeOf";
    "propertyIsEnumerable"; "toString"; "valueOf"; "__proto__";
    "toLocaleString" ].

(** Result of [obj[k]] for an object literal whose own properties are [own]:
    an own value, an inherited builtin (a function, or [Object.prototype]
    itself for ["__proto__"]), or [undefined]. *)
Inductive prop (A : Type) :=
| Own (a : A)
| Inherited (k : string)
| Undefined.
Arguments Own {A} a.
Arguments Inherited {A} k.
Arguments Undefined {A}.

Definition get {A} (own : gmap string A) (k : string) : prop A :=
  match own !! k with
  | Some a => Own a
  | None =>
      if bool_decide (k ∈ object_prototype_keys) then Inherited k
      else Undefined
  end.

(** [String(v)] of an inherited builtin [Object.prototype[k]]: native
    functions print their source text, [Object.prototype] prints as a plain
    object.  This is the property key it denotes when used in [o[v]], and
    the primitive it is compared by in [<], [>=]. *)
Definition builtin_to_string (k : string) : string :=
  if String.eqb k "__proto__" then "[object Object]"
  else "function "
         ++ (if String.eqb k "constructor" then "Object" else k)
         ++ "() { [native code] }".

(** What a property of a user object holds: a string, or the text
    [new Date(ms).toISOString()]. *)
Inductive text :=
| Text (s : string)
| DateISO (ms : Z).

(** The values that flow through the handlers: strings, numbers, object
    literals given by their properties in order, the text
    [new Date(ms).toISOString()], and builtins reached through the prototype
    chain (named by the property path from [Object.prototype]). *)
Inductive value :=
| VStr (s : string)
| VNum (n : Z)
| VObj (fields : list (string * text))
| VDateISO (ms : Z)
| VBuiltin (path : list string).



(** An awaited promise: fulfilled, rejected, or never settled. *)
Inductive settled (A : Type) :=
| Fulfilled (a : A)
| Rejected (e : error)
| Pending.
Arguments Fulfilled {A} a.
Arguments Rejected {A} e.
Arguments Pending {A}.

(** Non-empty strings are truthy. *)
Definition truthy_string (s : string) : bool := negb (String.eqb s "").

End Js.

Coercion Js.VStr : string >-> Js.value.

(** ** backend/config/roles.js *)

Module Roles.

(** [ROLES] and [PERMISSIONS] are object literals; [Object.values] lists
    their values in insertion order. *)
Definition ROLES : list (string * string) :=
  [ ("ADMIN", "admin"); ("USER", "user"); ("VIEWER", "viewer") ].

Definition PERMISSIONS : list (string * string) :=
  [ ("USERS_CREATE", "users:create"); ("USERS_READ", "users:read");
    ("USERS_UPDATE", "users:update"); ("USERS_DELETE", "users:delete");
    ("CONTRACTS_CREATE", "contracts:create"); ("CONTRACTS_READ", "contracts:read");
    ("CONTRACTS_UPDATE", "contracts:update"); ("CONTRACTS_DELETE", "contracts:delete");
    ("ORACLES_CREATE", "oracles:create"); ("ORACLES_READ", "oracles:read");
    ("ORACLES_UPDATE", "oracles:update"); ("ORACLES_DELETE", "oracles:delete");
    ("TOKENS_CREATE", "tokens:create"); ("TOKENS_READ", "tokens:read");
    ("TOKENS_UPDATE", "tokens:update"); ("TOKENS_DELETE", "tokens:delete");
    ("RISKS_CREATE", "risks:create"); ("RISKS_READ", "risks:read");
    ("RISKS_UPDATE", "risks:update"); ("RISKS_DELETE", "risks:delete");
    ("ALERTS_CREATE", "alerts:create"); ("ALERTS_READ", "alerts:read");
    ("ALERTS_UPDATE", "alerts:update"); ("ALERTS_DELETE", "alerts:delete");
    ("TREASURY_CREATE", "treasury:create"); ("TREASURY_READ", "treasury:read");
    ("TREASURY_UPDATE", "treasury:update"); ("TREASURY_DELETE", "treasury:delete");
    ("AI_LOGS_CREATE", "ai-logs:create"); ("AI_LOGS_READ", "ai-logs:read");
    ("AI_LOGS_UPDATE", "ai-logs:update"); ("AI_LOGS_DELETE", "ai-logs:delete");
    ("AUDIT_LOGS_READ", "audit-logs:read");
    ("SETTINGS_READ", "settings:read"); ("SETTINGS_UPDATE", "settings:update") ].

Definition Object_values {A} (o : list (string * A)) : list A := map snd o.

Definition admin_permissions : list string := Object_values PERMISSIONS.

Definition user_permissions : list string :=
  [ "contracts:create"; "contracts:read"; "contracts:update";
    "oracles:read";
    "tokens:read";
    "risks:create"; "risks:read"; "risks:update";
    "alerts:read"; "alerts:update";
    "treasury:read";
    "ai-logs:create"; "ai-logs:read";
    "settings:read" ].

Definition viewer_permissions : list string :=
  [ "contracts:read"; "oracles:read"; "tokens:read"; "risks:read";
    "alerts:read"; "treasury:read"; "ai-logs:read"; "settings:read" ].

(** [ROLE_PERMISSIONS]: an object literal keyed by role name whose values
    are [Set]s of permission strings. *)
Definition ROLE_PERMISSIONS : gmap string (gset string) :=
  <["admin" := list_to_set admin_permissions]>
    (<["user" := list_to_set user_permissions]>
       (<["viewer" := list_to_set viewer_permissions]> ∅)).

(** The permission set the table itself holds for a role (empty when the
    role is not an own key). *)
Definition granted (role : string) : gset string :=
  default ∅ (ROLE_PERMISSIONS !! role).

(** [Set.prototype.has]; the sets hold strings only, so it is false on any
    other value. *)
Definition Set_has (s : gset string) (v : Js.value) : bool :=
  match v with
  | Js.VStr x => bool_decide (x ∈ s)
  | _ => false
  end.

(** [hasPermission]: [ROLE_PERMISSIONS[role]], [false] when that is falsy,
    otherwise [rolePermissions.has(permission)].  An inherited builtin is
    truthy and has no [has] method, so the call throws a [TypeError]. *)
Definition hasPermission (role : string) (permission : Js.value)
  : Js.result bool :=
  match Js.get ROLE_PERMISSIONS role with
  | Js.Undefined => Js.Return false
  | Js.Own rolePermissions => Js.Return (Set_has rolePermissions permission)
  | Js.Inherited _ =>
      Js.Throw (Js.Err "TypeError" "rolePermissions.has is not a function")
  end.

(** [isValidRole]: [Object.values(ROLES).includes(role)]. *)
Definition isValidRole (role : string) : bool :=
  bool_decide (role ∈ Object_values ROLES).

(** A hierarchy level as [getRoleLevel] returns it: a number, or, when
    [levels[role]] hits an inherited builtin (truthy, so [|| 0] keeps it),
    that builtin. *)
Inductive level :=
| Num (n : Z)
| Builtin (k : string).

Definition levels : gmap string Z :=
  <["viewer" := 1]> (<["user" := 2]> (<["admin" := 3]> ∅)).

(** [getRoleLevel]: [levels[role] || 0]. *)
Definition getRoleLevel (role : string) : level :=
  match Js.get levels role with
  | Js.Own n => if Z.eqb n 0 then Num 0 else Num n
  | Js.Inherited k => Builtin k
  | Js.Undefined => Num 0
  end.

(** JavaScript [a >= b] on such values: numbers compare numerically; two
    builtins are both converted to strings and compared as strings; a
    builtin against a number converts to [NaN], and every comparison with
    [NaN] is false. *)
Definition js_ge (a b : level) : bool :=
  match a, b with
  | Num x, Num y => Z.geb x y
  | Builtin j, Builtin k =>
      negb (String.ltb (Js.builtin_to_string j) (Js.builtin_to_string k))
  | _, _ => false
  end.

(** [hasRoleLevel]: [getRoleLevel(userRole) >= getRoleLevel(requiredRole)]. *)
Definition hasRoleLevel (userRole requiredRole : string) : bool :=
  js_ge (getRoleLevel userRole) (getRoleLevel requiredRole).

(** An entry [{ create: c, read: r, update: u, delete: d }]; [None] is
    [null]. *)
Definition crud (c r u d : option string) : gmap string (option string) :=
  <["create" := c]> (<["read" := r]> (<["update" := u]> (<["delete" := d]> ∅))).

(** [RESOURCE_PERMISSIONS]: resource name to action to permission or
    [null]. *)
Definition RESOURCE_PERMISSIONS : gmap string (gmap string (option string)) :=
  <["contract-metrics" :=
      crud (Some "contracts:create") (Some "contracts:read")
           (Some "contracts:update") (Some "contracts:delete")]>
 (<["oracle-feeds" :=
      crud (Some "oracles:create") (Some "oracles:read")
           (Some "oracles:update") (Some "oracles:delete")]>
 (<["token-analytics" :=
      crud (Some "tokens:create") (Some "tokens:read")
           (Some "tokens:update") (Some "tokens:delete")]>
 (<["risk-assessments" :=
      crud (Some "risks:create") (Some "risks:read")
           (Some "risks:update") (Some "risks:delete")]>
 (<["alerts" :=
      crud (Some "alerts:create") (Some "alerts:read")
           (Some "alerts:update") (Some "alerts:delete")]>
 (<["treasury-operations" :=
      crud (Some "treasury:create") (Some "treasury:read")
           (Some "treasury:update") (Some "treasury:delete")]>
 (<["ai-action-logs" :=
      crud (Some "ai-logs:create") (Some "ai-logs:read")
           (Some "ai-logs:update") (Some "ai-logs:delete")]>
 (<["audit-logs" :=
      crud None (Some "audit-logs:read") None None]> ∅))))))).

Section Runtime.

(** Whether [b[p]] is truthy for the builtin [b = Object.prototype[k]]
    (for instance [Object.create] is, [Object.read] is not).  This is
    fixed by the JavaScript runtime and left open here. *)
Variable builtin_member : string -> string -> bool.

(** [getResourcePermission]: [RESOURCE_PERMISSIONS[resource]], [null]
    when falsy, otherwise [resourcePerms[action] || null].  The result is
    [None] for [null].  For a resource name that is found through the
    prototype chain only, [resourcePerms] is a builtin; a truthy member of
    it is named by its path, [VBuiltin [resource; action]], whatever kind of
    value it is (a function such as [Object.create], a string such as
    [Object.name]).  [requireResourceAccess] tests it for membership in the
    permission set of the role, which holds no such value, and echoes it as
    [required]. *)
Definition getResourcePermission (resource action : string)
  : option Js.value :=
  match Js.get RESOURCE_PERMISSIONS resource with
  | Js.Undefined => None
  | Js.Own resourcePerms =>
      match Js.get resourcePerms action with
      | Js.Own (Some p) =>
          if Js.truthy_string p then Some (Js.VStr p) else None
      | Js.Own None => None
      | Js.Inherited k => Some (Js.VBuiltin [k])
      | Js.Undefined => None
      end
  | Js.Inherited k =>
      if builtin_member k action then Some (Js.VBuiltin [k; action])
      else None
  end.

End Runtime.

End Roles.

(** ** Requests, responses and the effects of a middleware *)

Module Http.

(** The decoded token payload that ends up in [req.user]. *)
Record identity := Identity {
  id : string;
  email : string;
  role : string;
  iat : Z;
  exp : Z
}.

Record request := Request {
  method : string;
  cookies : gmap string string;
  headers : gmap string string;
  ip : string;
  user : option identity
}.

Definition set_user (req : request) (u : identity) : request :=
  {| method := method req; cookies := cookies req; headers := headers req;
     ip := ip req; user := Some u |}.

Record cookie_options := CookieOptions {
  httpOnly : bool;
  secure : bool;
  sameSite : string;
  path : string;
  maxAge : option Z
}.

(** What a handler does, in order: [res.status(s).json(body)], [next()],
    console output, cookie instructions, awaiting the ownership predicate,
    or an exception that escapes the handler. *)
Inductive effect :=
| Respond (status : Z) (body : list (string * Js.value))
| Next
| ConsoleWarn (text detail : string)
| ConsoleError (text : string) (e : Js.error)
| SetCookie (name value : string) (o : cookie_options)
| ClearCookie (name : string) (o : cookie_options)
| AwaitOwnershipCheck
| Uncaught (e : Js.error).

Definition trace := list effect.

(** The HTTP status a trace answers with, if it answers. *)
Fixpoint status_of (t : trace) : option Z :=
  match t with
  | [] => None
  | Respond s _ :: _ => Some s
  | _ :: t' => status_of t'
  end.

Fixpoint body_of (t : trace) : option (list (string * Js.value)) :=
  match t with
  | [] => None
  | Respond _ b :: _ => Some b
  | _ :: t' => body_of t'
  end.

Definition is_next (e : effect) : bool :=
  match e with Next => true | _ => false end.

(** The request was handed to the next handler. *)
Definition continues (t : trace) : bool := existsb is_next t.

Definition is_await (e : effect) : bool :=
  match e with AwaitOwnershipCheck => true | _ => false end.

(** The trace answers with status [s] and does not call [next()]. *)
Definition denied_with (s : Z) (t : trace) : Prop :=
  status_of t = Some s ∧ continues t = false.

(** [body[k]] of a JSON body. *)
Fixpoint field (k : string) (b : list (string * Js.value)) : option Js.value :=
  match b with
  | [] => None
  | (k', v) :: b' => if String.eqb k k' then Some v else field k b'
  end.

(** An HTTP method as the HTTP parser hands it over: upper-case letters,
    possibly with a dash (GET, OPTIONS, M-SEARCH, ...). *)
Definition verb_char (c : ascii) : bool :=
  let n := N_of_ascii c in
  ((65 <=? n)%N && (n <=? 90)%N) || (n =? 45)%N.

Fixpoint all_chars (f : ascii -> bool) (s : string) : bool :=
  match s with
  | EmptyString => true
  | String c s' => f c && all_chars f s'
  end.

Definition is_verb (m : string) : bool :=
  Js.truthy_string m && all_chars verb_char m.

End Http.

(** ** backend/middleware/authorize.js *)

Module Authorize.
Import Http Roles.

Definition unauthorized : effect :=
  Respond 401 [ ("error", Js.VStr "Unauthorized");
                ("message", Js.VStr "Authentication required") ].

Definition invalid_role : effect :=
  Respond 403 [ ("error", Js.VStr "Forbidden");
                ("message", Js.VStr "Invalid user role") ].

(** [!role || !isValidRole(role)] *)
Definition role_rejected (role : string) : bool :=
  negb (Js.truthy_string role) || negb (isValidRole role).

(** [requireRoleLevel(minimumRole)] *)
Definition requireRoleLevel (minimumRole : string) (req : request) : trace :=
  match user req with
  | None => [unauthorized]
  | Some u =>
      let role := role u in
      if role_rejected role then [invalid_role]
      else if negb (hasRoleLevel role minimumRole) then
        [Respond 403 [ ("error", Js.VStr "Forbidden");
                       ("message", Js.VStr "Insufficient role level");
                       ("required", Js.VStr minimumRole) ]]
      else [Next]
  end.

Definition methodToAction : gmap string string :=
  <["GET" := "read"]> (<["POST" := "create"]> (<["PUT" := "update"]>
    (<["PATCH" := "update"]> (<["DELETE" := "delete"]> ∅)))).

Section Runtime.

Variable builtin_member : string -> string -> bool.

(** The part of [requireResourceAccess] after the action is known.
    [action] is the property key the action denotes. *)
Definition check_resource (resourceName role action : string) : trace :=
  match getResourcePermission builtin_member resourceName action with
  | None =>
      [Respond 403
         [ ("error", Js.VStr "Forbidden");
           ("message", Js.VStr "This action is not permitted on this resource") ]]
  | Some requiredPermission =>
      match hasPermission role requiredPermission with
      | Js.Throw e => [Uncaught e]
      | Js.Return false =>
          [Respond 403
             [ ("error", Js.VStr "Forbidden");
               ("message", Js.VStr "Insufficient permissions for this action");
               ("required", requiredPermission) ]]
      | Js.Return true => [Next]
      end
  end.

(** [requireResourceAccess(resourceName)] *)
Definition requireResourceAccess (resourceName : string) (req : request)
  : trace :=
  match user req with
  | None => [unauthorized]
  | Some u =>
      let role := role u in
      if role_rejected role then [invalid_role]
      else
        match Js.get methodToAction (method req) with
        | Js.Undefined =>
            [Respond 405
               [ ("error", Js.VStr "Method Not Allowed");
                 ("message",
                  Js.VStr ("HTTP method " ++ method req ++ " is not supported")) ]]
        | Js.Own action => check_resource resourceName role action
        | Js.Inherited k =>
            (* a truthy builtin; as a property key it is its string form *)
            check_resource resourceName role (Js.builtin_to_string k)
        end
  end.

End Runtime.

(** [requireOwnership(ownershipCheck)].  [ownershipCheck req] is how the
    awaited predicate settles; [Fulfilled b] carries the truthiness of the
    value it resolves to. *)
Definition requireOwnership (ownershipCheck : request -> Js.settled bool)
    (req : request) : trace :=
  match user req with
  | None => [unauthorized]
  | Some u =>
      if String.eqb (role u) "admin" then [Next]
      else
        AwaitOwnershipCheck ::
        match ownershipCheck req with
        | Js.Fulfilled isOwner =>
            if negb isOwner then
              [Respond 403
                 [ ("error", Js.VStr "Forbidden");
                   ("message", Js.VStr "You can only access your own resources") ]]
            else [Next]
        | Js.Rejected error =>
            [ ConsoleError "Ownership check error:" error;
              Respond 500
                [ ("error", Js.VStr "Internal Server Error");
                  ("message", Js.VStr "Failed to verify resource ownership") ] ]
        | Js.Pending => []
        end
  end.

End Authorize.

(** ** The libraries and the environment the handlers call into *)

Module Env.

(** The object [generateTokens] signs: [{ id, email, role }]. *)
Record payload := Payload { sub_id : string; sub_email : string; sub_role : string }.

(** [jsonwebtoken] and [bcryptjs], as far as the handlers use them.
    [jwt_sign] takes the payload, the secret, [expiresIn] and the clock
    ([Date.now()], milliseconds); [jwt_verify] takes the token, the secret
    and the clock; [bcrypt_compare] takes the password and the stored hash
    ([None] when the user has none).  Each may throw. *)
Record lib := Lib {
  jwt_sign : payload -> string -> string -> Z -> Js.result string;
  jwt_verify : string -> string -> Z -> Js.result Http.identity;
  bcrypt_compare : string -> option string -> Js.result bool
}.

(** [process.env] *)
Record process_env := ProcessEnv {
  JWT_SECRET : string;
  JWT_REFRESH_SECRET : string;
  NODE_ENV : string
}.

End Env.

(** ** backend/middleware/authenticate.js *)

Module Authenticate.
Import Http Env.

Section WithLib.
Variable L : lib.
Variable env : process_env.

Definition reject (msg : string) : effect :=
  Respond 401 [ ("error", Js.VStr "Unauthorized"); ("message", Js.VStr msg) ].

(** [req.cookies.accessToken] when it is truthy. *)
Definition accessToken (req : request) : option string :=
  match cookies req !! "accessToken" with
  | Some t => if Js.truthy_string t then Some t else None
  | None => None
  end.

(** [authenticateToken]; [now] is the clock [jwt.verify] reads. *)
Definition authenticateToken (now : Z) (req : request) : request * trace :=
  match accessToken req with
  | None => (req, [reject "Access token required"])
  | Some token =>
      match jwt_verify L token (JWT_SECRET env) now with
      | Js.Return decoded => (set_user req decoded, [Next])
      | Js.Throw error =>
          if String.eqb (Js.name error) "TokenExpiredError" then
            (req, [reject "Access token expired"])
          else if String.eqb (Js.name error) "JsonWebTokenError" then
            (req, [reject "Invalid access token"])
          else (req, [reject "Authentication failed"])
      end
  end.

(** [optionalAuth] *)
Definition optionalAuth (now : Z) (req : request) : request * trace :=
  match accessToken req with
  | None => (req, [Next])
  | Some token =>
      match jwt_verify L token (JWT_SECRET env) now with
      | Js.Return decoded => (set_user req decoded, [Next])
      | Js.Throw error =>
          (req, [ ConsoleWarn "Optional auth token invalid:" (Js.message error);
                  Next ])
      end
  end.

End WithLib.

End Authenticate.

(** ** backend/routes/auth.js *)

Module Auth.
Import Http Env.

(** What [POST /google] leaves on a user object: [google_id] and
    [avatar_url] ([None] when the Google profile has no picture).  The
    handler writes them in the literal of a user it creates, between
    [full_name] and [role]; on a user that exists already it assigns them
    afterwards, so that they come last: that is [linked]. *)
Record google_account := Google {
  google_id : string;
  avatar_url : option string;
  linked : bool
}.

(** An object of the [users] table.  [password] is [None] for [null], which
    is what [POST /google] stores for the users it creates; [created_at]
    is the instant whose [toISOString()] the object holds; [google] is
    [None] as long as the object has no [google_id]. *)
Record user := User {
  id : string;
  email : string;
  password : option string;
  full_name : string;
  role : string;
  created_at : Z;
  google : option google_account
}.

(** The two module-level variables: the mock user table and the refresh
    token registry, [new Set()]. *)
Record state := State {
  users : list user;
  refreshTokens : gset string
}.

(** The state once the module is loaded; [loaded] is the instant of
    loading, which both mock users get as [created_at]. *)
Definition initial (loaded : Z) : state :=
  {| users :=
       [ {| id := "1"; email := "admin@lumanagi.com";
            password := Some "$2a$10$AYh.miNYoHy.7xDMXVXqbOKWh62ZqVREmrg1tuR6Ho8B8obUHKb06";
            full_name := "Admin User"; role := "admin";
            created_at := loaded; google := None |};
         {| id := "2"; email := "user@lumanagi.com";
            password := Some "$2a$10$AYh.miNYoHy.7xDMXVXqbOKWh62ZqVREmrg1tuR6Ho8B8obUHKb06";
            full_name := "Regular User"; role := "user";
            created_at := loaded; google := None |} ];
     refreshTokens := ∅ |}.

Section WithLib.
Variable L : lib.
Variable env : process_env.

Definition COOKIE_OPTIONS (maxAge : option Z) : cookie_options :=
  {| httpOnly := true;
     secure := String.eqb (NODE_ENV env) "production";
     sameSite := "strict";
     path := "/";
     maxAge := maxAge |}.

(** [generateTokens]; either [jwt.sign] may throw. *)
Definition generateTokens (now : Z) (u : user) : Js.result (string * string) :=
  let payload := {| sub_id := id u; sub_email := email u; sub_role := role u |} in
  match jwt_sign L payload (JWT_SECRET env) "15m" now with
  | Js.Throw e => Js.Throw e
  | Js.Return accessToken =>
      match jwt_sign L payload (JWT_REFRESH_SECRET env) "7d" now with
      | Js.Throw e => Js.Throw e
      | Js.Return refreshToken => Js.Return (accessToken, refreshToken)
      end
  end.

Definition setAuthCookies (accessToken refreshToken : string) : trace :=
  [ SetCookie "accessToken" accessToken (COOKIE_OPTIONS (Some (15 * 60 * 1000)));
    SetCookie "refreshToken" refreshToken
      (COOKIE_OPTIONS (Some (7 * 24 * 60 * 60 * 1000))) ].

Definition clearAuthCookies : trace :=
  [ ClearCookie "accessToken" (COOKIE_OPTIONS None);
    ClearCookie "refreshToken" (COOKIE_OPTIONS None) ].

(** [const { password: _, ...userWithoutPassword } = user]: the own
    properties of the user object other than [password], in the order in
    which they were written.  A property that is [undefined] is left out
    when the object is sent as JSON. *)
Definition userWithoutPassword (u : user) : list (string * Js.text) :=
  let picture (g : google_account) :=
    match avatar_url g with
    | Some url => [("avatar_url", Js.Text url)]
    | None => []
    end in
  match google u with
  | None =>
      [ ("id", Js.Text (id u)); ("email", Js.Text (email u));
        ("full_name", Js.Text (full_name u)); ("role", Js.Text (role u));
        ("created_at", Js.DateISO (created_at u)) ]
  | Some g =>
      if linked g then
        ([ ("id", Js.Text (id u)); ("email", Js.Text (email u));
           ("full_name", Js.Text (full_name u)); ("role", Js.Text (role u));
           ("created_at", Js.DateISO (created_at u));
           ("google_id", Js.Text (google_id g)) ] ++ picture g)%list
      else
        ([ ("id", Js.Text (id u)); ("email", Js.Text (email u));
           ("full_name", Js.Text (full_name u)) ] ++ picture g ++
         [ ("google_id", Js.Text (google_id g)); ("role", Js.Text (role u));
           ("created_at", Js.DateISO (created_at u)) ])%list
  end.

(** [POST /login] with [req.body = {email, password}].  The handler awaits
    [bcrypt.compare] between the lookup and the rest; users are only ever
    appended to the table and keep their email and password, so the user it
    found is the one a lookup finds when it resumes, and [st] is the state
    of that moment. *)
Definition login (now : Z) (st : state) (email_ password_ : string)
  : state * trace :=
  if negb (Js.truthy_string email_) || negb (Js.truthy_string password_) then
    (st, [Respond 400 [("error", Js.VStr "Email and password are required")]])
  else
    match find (fun u => String.eqb (email u) email_) (users st) with
    | None => (st, [Respond 401 [("error", Js.VStr "Invalid credentials")]])
    | Some u =>
        let failed e :=
          (st, [ ConsoleError "Login error:" e;
                 Respond 500 [("error", Js.VStr "Login failed")] ]) in
        match bcrypt_compare L password_ (password u) with
        | Js.Throw e => failed e
        | Js.Return false =>
            (st, [Respond 401 [("error", Js.VStr "Invalid credentials")]])
        | Js.Return true =>
            match generateTokens now u with
            | Js.Throw e => failed e
            | Js.Return (accessToken, refreshToken) =>
                ({| users := users st;
                    refreshTokens := {[refreshToken]} ∪ refreshTokens st |},
                 (setAuthCookies accessToken refreshToken ++
                  [Respond 200 [ ("user", Js.VObj (userWithoutPassword u));
                                ("message", Js.VStr "Login successful") ]])%list)
            end
        end
    end.

(** [POST /refresh] *)
Definition refresh (now : Z) (st : state) (req : request) : state * trace :=
  let invalid :=
    (st, (clearAuthCookies ++
          [Respond 401 [("error", Js.VStr "Invalid refresh token")]])%list) in
  let caught e :=
    (st, (ConsoleError "Token refresh error:" e :: clearAuthCookies ++
          [Respond 401 [("error", Js.VStr "Invalid refresh token")]])%list) in
  match cookies req !! "refreshToken" with
  | None => invalid
  | Some refreshToken =>
      if negb (Js.truthy_string refreshToken)
         || negb (bool_decide (refreshToken ∈ refreshTokens st))
      then invalid
      else
        match jwt_verify L refreshToken (JWT_REFRESH_SECRET env) now with
        | Js.Throw e => caught e
        | Js.Return decoded =>
            match find (fun u => String.eqb (id u) (Http.id decoded)) (users st) with
            | None =>
                (st, (clearAuthCookies ++
                      [Respond 401 [("error", Js.VStr "User not found")]])%list)
            | Some u =>
                match generateTokens now u with
                | Js.Throw e => caught e
                | Js.Return (accessToken, newRefreshToken) =>
                    ({| users := users st;
                        refreshTokens :=
                          {[newRefreshToken]} ∪ (refreshTokens st ∖ {[refreshToken]}) |},
                     (setAuthCookies accessToken newRefreshToken ++
                      [Respond 200
                         [("message", Js.VStr "Token refreshed successfully")]])%list)
                end
            end
        end
  end.

End WithLib.

End Auth.

(** ** backend/middleware/rateLimiter.js *)

Module RateLimiter.
Import Http.

(** [req.rateLimit] as the limiter fills it in. *)
Record rateLimitInfo := RateLimitInfo {
  limit : Z;
  used : Z;
  remaining : Z;
  resetTime : Z
}.

(** [Math.ceil(a / b)] for integers [a] and positive [b]. *)
Definition ceil_div (a b : Z) : Z := - ((- a) / b).

(** [createRateLimitMessage]; [now] is [Date.now()]. *)
Definition createRateLimitMessage (info : rateLimitInfo) (now : Z)
  : list (string * Js.value) :=
  let retryAfter := ceil_div (resetTime info - now) 1000 in
  [ ("error", Js.VStr "Too many requests");
    ("message",
     Js.VStr ("You have exceeded the rate limit. Please try again in "
              ++ pretty retryAfter ++ " seconds."));
    ("retryAfter", Js.VNum retryAfter);
    ("limit", Js.VNum (limit info));
    ("remaining", Js.VNum (remaining info));
    ("resetTime", Js.VDateISO (resetTime info)) ].

(** [rateLimitHandler] *)
Definition rateLimitHandler (info : rateLimitInfo) (now : Z) : trace :=
  [Respond 429 (createRateLimitMessage info now)].

(** [forwarded.split(',')[0]] *)
Fixpoint before_comma (s : string) : string :=
  match s with
  | EmptyString => EmptyString
  | String c s' => if Ascii.eqb c "," then EmptyString else String c (before_comma s')
  end.

(** White space [String.prototype.trim] strips, among one-byte characters. *)
Definition is_space (c : ascii) : bool :=
  let n := N_of_ascii c in
  ((9 <=? n)%N && (n <=? 13)%N) || (n =? 32)%N || (n =? 160)%N.

Fixpoint trim_start (s : string) : string :=
  match s with
  | String c s' => if is_space c then trim_start s' else s
  | EmptyString => EmptyString
  end.

Fixpoint trim_end (s : string) : string :=
  match s with
  | EmptyString => EmptyString
  | String c s' =>
      match trim_end s' with
      | EmptyString => if is_space c then EmptyString else String c EmptyString
      | t => String c t
      end
  end.

Definition trim (s : string) : string := trim_end (trim_start s).

(** [keyGenerator] *)
Definition keyGenerator (req : request) : string :=
  match headers req !! "x-forwarded-for" with
  | Some forwarded =>
      if Js.truthy_string forwarded then trim (before_comma forwarded)
      else ip req
  | None => ip req
  end.

(** The options handed to [rateLimit({...})]; [keyGenerator] and [handler]
    are the two functions above for every limiter of the file. *)
Record options := Options {
  windowMs : Z;
  max : Z;
  message : string;
  skipSuccessfulRequests : bool
}.

Definition loginRateLimiter : options :=
  {| windowMs := 15 * 60 * 1000;
     max := 5;
     message := "Too many login attempts from this IP, please try again after 15 minutes";
     skipSuccessfulRequests := true |}.

Record bucket := Bucket { count : Z; reset : Z }.

(** Modelled from the spec: the bucket a request of [key] finds at instant
    [now].  The store behind [rateLimit(options)] belongs to the
    express-rate-limit package, whose code is not among the sources.  By the
    spec a bucket is "keyed by (client key, limiter identity), holds a count
    and a window-reset timestamp", is "created lazily on first request in a
    window" and "reset when the window expires". *)
Definition current (o : options) (buckets : gmap string bucket)
    (key : string) (now : Z) : bucket :=
  match buckets !! key with
  | Some b => if now <? reset b then b else {| count := 0; reset := now + windowMs o |}
  | None => {| count := 0; reset := now + windowMs o |}
  end.

(** Modelled from the spec: which responses count, the package's
    [skipSuccessfulRequests] option.  By the spec, with "skip successful
    requests" a bucket "only increments on responses whose status is >= 400";
    without it "all attempts [are] counted". *)
Definition counted (o : options) (statusCode : Z) : bool :=
  if skipSuccessfulRequests o then 400 <=? statusCode else true.

(** Modelled from the spec: the bucket after a response with [statusCode]
    (the package's counter update, not among the sources). *)
Definition record (o : options) (b : bucket) (statusCode : Z) : bucket :=
  {| count := if counted o statusCode then count b + 1 else count b;
     reset := reset b |}.

(** Modelled from the spec: the middleware that [rateLimit(options)] builds
    (express-rate-limit, not among the sources), in front of the handler
    [inner].  By the spec these are "fixed-window counters keyed by client
    identity"; a request that exceeds the limit is answered by the handler
    with 429 and [req.rateLimit] filled in; any other request is passed on
    and its response is counted according to the count policy. *)
Definition rateLimit {S : Type} (o : options) (inner : S -> S * trace)
    (now : Z) (buckets : gmap string bucket) (st : S) (req : request)
  : gmap string bucket * S * trace :=
  let key := keyGenerator req in
  let b := current o buckets key now in
  if max o <=? count b then
    let info := {| limit := max o; used := count b + 1;
                   remaining := Z.max (max o - (count b + 1)) 0;
                   resetTime := reset b |} in
    (<[key := record o b 429]> buckets, st, rateLimitHandler info now)
  else
    let '(st', t) := inner st in
    (<[key := record o b (default 200 (status_of t))]> buckets, st', Next :: t).

(** Modelled from the spec: [POST /login] behind [loginRateLimiter].  The
    file that mounts the routes is not among the sources; by the spec the
    control flow of a request is "Rate Limiter, Authentication Middleware,
    Authorization Middleware, business handler", the limiter "composed in
    front of" the auth endpoints. *)
Definition login_route (L : Env.lib) (env : Env.process_env) (now : Z)
    (buckets : gmap string bucket) (st : Auth.state) (req : request)
    (email password : string) : gmap string bucket * Auth.state * trace :=
  rateLimit loginRateLimiter
    (fun st => Auth.login L env now st email password) now buckets st req.

(** A sequence of login requests, served one after the other. *)
Record attempt := Attempt {
  at_time : Z;
  at_req : request;
  at_email : string;
  at_password : string
}.

Fixpoint login_attempts (L : Env.lib) (env : Env.process_env)
    (attempts : list attempt) (buckets : gmap string bucket) (st : Auth.state)
  : gmap string bucket * Auth.state * list trace :=
  match attempts with
  | [] => (buckets, st, [])
  | a :: rest =>
      let '(buckets1, st1, t) :=
        login_route L env (at_time a) buckets st (at_req a)
          (at_email a) (at_password a) in
      let '(buckets2, st2, ts) := login_attempts L env rest buckets1 st1 in
      (buckets2, st2, t :: ts)
  end.

(** The response finished with a status of 400 or more. *)
Definition failed (t : trace) : bool := 400 <=? default 200 (status_of t).

Definition failures (ts : list trace) : Z :=
  Z.of_nat (length (filter (λ t, failed t = true) ts)).

End RateLimiter.

(** ** A deterministic stand-in for the libraries

    Used to run the handlers on concrete requests.  Like an HS256 token of
    [jsonwebtoken], the token text is a function of the payload, the secret,
    the issue second and the expiry, and of nothing else. *)

Module Reference.
Import Env.

(** ["15m"] and ["7d"] in seconds. *)
Definition seconds (expiresIn : string) : Z :=
  if String.eqb expiresIn "15m" then 15 * 60
  else if String.eqb expiresIn "7d" then 7 * 24 * 60 * 60
  else 0.

Definition sign (p : payload) (secret expiresIn : string) (now : Z)
  : Js.result string :=
  let iat := now / 1000 in
  Js.Return (sub_id p ++ "|" ++ sub_email p ++ "|" ++ sub_role p ++ "|"
             ++ pretty iat ++ "|" ++ pretty (iat + seconds expiresIn)
             ++ "|" ++ secret).

Fixpoint split_bar (s : string) : list string :=
  match s with
  | EmptyString => [EmptyString]
  | String c s' =>
      match split_bar s' with
      | [] => [String c EmptyString]
      | w :: ws => if Ascii.eqb c "|" then EmptyString :: w :: ws
                   else String c w :: ws
      end
  end.

Fixpoint digits (s : string) (acc : Z) : option Z :=
  match s with
  | EmptyString => Some acc
  | String c s' =>
      let n := Z.of_N (N_of_ascii c) in
      if (48 <=? n) && (n <=? 57) then digits s' (10 * acc + (n - 48))
      else None
  end.

Definition malformed : Js.error := Js.Err "JsonWebTokenError" "jwt malformed".

Definition verify (token secret : string) (now : Z) : Js.result Http.identity :=
  match split_bar token with
  | [i; e; r; iat; exp; sig] =>
      match digits iat 0, digits exp 0 with
      | Some iat, Some exp =>
          if negb (String.eqb sig secret) then
            Js.Throw (Js.Err "JsonWebTokenError" "invalid signature")
          else if exp <=? now / 1000 then
            Js.Throw (Js.Err "TokenExpiredError" "jwt expired")
          else Js.Return (Http.Identity i e r iat exp)
      | _, _ => Js.Throw malformed
      end
  | _ => Js.Throw malformed
  end.

(** The stored hash of both mock users is the hash of ['demo123']. *)
Definition compare (password : string) (hash : option string) : Js.result bool :=
  match hash with
  | Some h =>
      Js.Return
        (String.eqb password "demo123"
         && String.eqb h "$2a$10$AYh.miNYoHy.7xDMXVXqbOKWh62ZqVREmrg1tuR6Ho8B8obUHKb06")
  | None => Js.Throw (Js.Err "Error" "Illegal arguments: string, object")
  end.

Definition lib : Env.lib :=
  {| jwt_sign := sign; jwt_verify := verify; bcrypt_compare := compare |}.

Definition env : process_env :=
  {| JWT_SECRET := "access-secret"; JWT_REFRESH_SECRET := "refresh-secret";
     NODE_ENV := "development" |}.

End Reference.


(** ** Concrete requests used to run the handlers *)

Module Sample.
Import Http.

Definition viewer : identity :=
  {| id := "3"; email := "viewer@lumanagi.com"; role := "viewer";
     iat := 1700000000; exp := 1700000900 |}.

Definition admin : identity :=
  {| id := "1"; email := "admin@lumanagi.com"; role := "admin";
     iat := 1700000000; exp := 1700000900 |}.

Definition regular : identity :=
  {| id := "2"; email := "user@lumanagi.com"; role := "user";
     iat := 1700000000; exp := 1700000900 |}.

(** An identity whose role is outside the enumeration. *)
Definition guest : identity :=
  {| id := "9"; email := "guest@lumanagi.com"; role := "guest";
     iat := 1700000000; exp := 1700000900 |}.

Definition request_of (m : string) (c : gmap string string)
    (u : option identity) : request :=
  {| method := m; cookies := c; headers := ∅; ip := "203.0.113.7"; user := u |}.

(** The instant at which the server was started. *)
Definition loaded : Z := 1699999000000.

(** The instant of the first request of a run, [Date.now()] in
    milliseconds. *)
Definition t0 : Z := 1700000000123.

(** The refresh token [POST /login] hands the admin at [t0] under the
    stand-in libraries. *)
Definition admin_refresh_token : string :=
  "1|admin@lumanagi.com|admin|1700000000|1700604800|refresh-secret".

Definition admin_access_token : string :=
  "1|admin@lumanagi.com|admin|1700000000|1700000900|access-secret".

(** A login request of the admin at instant [t], with a wrong and with the
    right password. *)
Definition wrong_password (t : Z) : RateLimiter.attempt :=
  RateLimiter.Attempt t (request_of "POST" ∅ None) "admin@lumanagi.com" "guess".

Definition right_password (t : Z) : RateLimiter.attempt :=
  RateLimiter.Attempt t (request_of "POST" ∅ None) "admin@lumanagi.com" "demo123".

(** V8: of the inherited builtins, only [Object] (reached as
    ["constructor"]) has a [create] member among the four actions. *)
Definition builtin_member (k p : string) : bool :=
  String.eqb k "constructor" && String.eqb p "create".

End Sample.

(** ** The rest of backend/config/roles.js *)

Module RolesApi.
Import Roles.

(** What [getRolePermissions] hands back: a [Set], or an inherited builtin
    that is not one. *)
Inductive role_permissions :=
| PermissionSet (s : gset string)
| NotASet (k : string).

(** [getRolePermissions]: [ROLE_PERMISSIONS[role] || new Set()].  A [Set],
    even an empty one, and an inherited builtin are truthy. *)
Definition getRolePermissions (role : string) : role_permissions :=
  match Js.get ROLE_PERMISSIONS role with
  | Js.Own s => PermissionSet s
  | Js.Inherited k => NotASet k
  | Js.Undefined => PermissionSet ∅
  end.

(** The action a permission [resource:action] names: the text after the
    first colon. *)
Fixpoint action_part (permission : string) : string :=
  match permission with
  | EmptyString => EmptyString
  | String c rest => if Ascii.eqb c ":" then rest else action_part rest
  end.

End RolesApi.

(** ** The rest of backend/middleware/authorize.js *)

Module Gates.
Import Http Roles Authorize.

(** A field of a JSON body: one of the values above, or an array of
    strings. *)
Inductive json :=
| Value (v : Js.value)
| Strings (l : list string).

(** The effects of these gates: those of [Http], and a response whose body
    may hold arrays. *)
Inductive effect :=
| Plain (e : Http.effect)
| RespondJson (status : Z) (body : list (string * json)).

Definition trace := list effect.

Definition lift (t : Http.trace) : trace := map Plain t.

Fixpoint status (t : trace) : option Z :=
  match t with
  | [] => None
  | Plain (Respond s _) :: _ => Some s
  | RespondJson s _ :: _ => Some s
  | _ :: t' => status t'
  end.

Definition calls_next (e : effect) : bool :=
  match e with Plain Next => true | _ => false end.

(** The gate called [next()]. *)
Definition passes (t : trace) : bool := existsb calls_next t.

Definition escapes (e : effect) : bool :=
  match e with Plain (Uncaught _) => true | _ => false end.

(** A parameter documented as [string|string[]]. *)
Inductive one_or_many :=
| One (s : string)
| Many (l : list string).

(** [Array.isArray(x) ? x : [x]] *)
Definition to_array (x : one_or_many) : list string :=
  match x with
  | One s => [s]
  | Many l => l
  end.

(** [requireRole(allowedRoles)] *)
Definition requireRole (allowedRoles : one_or_many) (req : request) : trace :=
  match user req with
  | None => [Plain unauthorized]
  | Some u =>
      let role := role u in
      if role_rejected role then [Plain invalid_role]
      else
        let roles := to_array allowedRoles in
        if negb (bool_decide (role ∈ roles)) then
          [RespondJson 403
             [ ("error", Value (Js.VStr "Forbidden"));
               ("message", Value (Js.VStr "Insufficient permissions"));
               ("required",
                match roles with
                | [r] => Value (Js.VStr r)
                | _ => Strings roles
                end) ]]
        else [Plain Next]
  end.

(** [permissions.every(p => hasPermission(role, p))]: stops at the first
    [false]; a throwing callback aborts it. *)
Fixpoint every_permission (role : string) (permissions : list string)
  : Js.result bool :=
  match permissions with
  | [] => Js.Return true
  | p :: ps =>
      match hasPermission role (Js.VStr p) with
      | Js.Throw e => Js.Throw e
      | Js.Return false => Js.Return false
      | Js.Return true => every_permission role ps
      end
  end.

(** [permissions.some(p => hasPermission(role, p))]: stops at the first
    [true]. *)
Fixpoint some_permission (role : string) (permissions : list string)
  : Js.result bool :=
  match permissions with
  | [] => Js.Return false
  | p :: ps =>
      match hasPermission role (Js.VStr p) with
      | Js.Throw e => Js.Throw e
      | Js.Return true => Js.Return true
      | Js.Return false => some_permission role ps
      end
  end.

Definition insufficient (required : list string) : effect :=
  RespondJson 403
    [ ("error", Value (Js.VStr "Forbidden"));
      ("message", Value (Js.VStr "Insufficient permissions"));
      ("required", Strings required) ].

(** [requirePermission(requiredPermissions)] *)
Definition requirePermission (requiredPermissions : one_or_many)
    (req : request) : trace :=
  match user req with
  | None => [Plain unauthorized]
  | Some u =>
      let role := role u in
      if role_rejected role then [Plain invalid_role]
      else
        let permissions := to_array requiredPermissions in
        match every_permission role permissions with
        | Js.Throw e => [Plain (Uncaught e)]
        | Js.Return hasAllPermissions =>
            if negb hasAllPermissions then [insufficient permissions]
            else [Plain Next]
        end
  end.

(** [requireAnyPermission(requiredPermissions)], on an array. *)
Definition requireAnyPermission (requiredPermissions : list string)
    (req : request) : trace :=
  match user req with
  | None => [Plain unauthorized]
  | Some u =>
      let role := role u in
      if role_rejected role then [Plain invalid_role]
      else
        match some_permission role requiredPermissions with
        | Js.Throw e => [Plain (Uncaught e)]
        | Js.Return hasAnyPermission =>
            if negb hasAnyPermission then [insufficient requiredPermissions]
            else [Plain Next]
        end
  end.

(** [combineChecks(checks)]: [runChecks(index)] calls [next()] past the end
    of the array, and otherwise runs [checks[index]] with a callback that
    goes on with [runChecks(index + 1)].  The list is the part of the array
    from [index] on; the callback takes the place of each [next()] of the
    check.  None of the gates hands an error to the callback. *)
Fixpoint runChecks (checks : list (request -> trace)) (req : request) : trace :=
  match checks with
  | [] => [Plain Next]
  | check :: rest =>
      flat_map (fun e => if calls_next e then runChecks rest req else [e])
               (check req)
  end.

Definition combineChecks (checks : list (request -> trace)) (req : request)
  : trace := runChecks checks req.

End Gates.

(** ** The rest of backend/routes/auth.js *)

Module AuthRoutes.
Import Http Env Auth.

Section WithLib.
Variable L : lib.
Variable env : process_env.

(** [bcrypt.hash(password, rounds)] *)
Variable bcrypt_hash : string -> Z -> Js.result string.

(** [POST /register] with [req.body = {email, password, full_name}], up to
    its [await bcrypt.hash(password, 10)]: the answer of a request that is
    refused there, [None] for one that goes on to hash the password. *)
Definition register_checks (st : state) (email_ password_ full_name_ : string)
  : option trace :=
  if negb (Js.truthy_string email_) || negb (Js.truthy_string password_)
     || negb (Js.truthy_string full_name_) then
    Some [Respond 400
            [("error", Js.VStr "Email, password, and full name are required")]]
  else
    match find (fun u => String.eqb (email u) email_) (users st) with
    | Some existingUser =>
        Some [Respond 409 [("error", Js.VStr "User already exists")]]
    | None => None
    end.

(** The object literal [newUser], built at instant [now] over the table
    [users]. *)
Definition newUser (now : Z) (users : list user)
    (email_ hashedPassword full_name_ : string) : user :=
  {| id := pretty (length users + 1)%nat;
     email := email_;
     password := Some hashedPassword;
     full_name := full_name_;
     role := "user";
     created_at := now;
     google := None |}.

(** [POST /register] from the point where the awaited [bcrypt.hash] has
    settled as [hashed].  While the hash was computed other requests may
    have been served: [st] is the state at this later moment, [now] its
    instant.  The email is not looked up again.  The new user is pushed
    before the tokens are signed, so it stays when signing throws. *)
Definition register_resume (now : Z) (st : state) (email_ full_name_ : string)
    (hashed : Js.result string) : state * trace :=
  let failed st' e :=
    (st', [ ConsoleError "Registration error:" e;
            Respond 500 [("error", Js.VStr "Registration failed")] ]) in
  match hashed with
  | Js.Throw e => failed st e
  | Js.Return hashedPassword =>
      let newUser := newUser now (users st) email_ hashedPassword full_name_ in
      let pushed :=
        {| users := users st ++ [newUser];
           refreshTokens := refreshTokens st |} in
      match generateTokens L env now newUser with
      | Js.Throw e => failed pushed e
      | Js.Return (accessToken, refreshToken) =>
          ({| users := users pushed;
              refreshTokens := {[refreshToken]} ∪ refreshTokens pushed |},
           (setAuthCookies env accessToken refreshToken ++
            [Respond 201 [ ("user", Js.VObj (userWithoutPassword newUser));
                           ("message", Js.VStr "Registration successful") ]])%list)
      end
  end.

(** [POST /register] served with no other request in between: the state
    in which the handler resumes is the one it checked. *)
Definition register (now : Z) (st : state) (email_ password_ full_name_ : string)
  : state * trace :=
  match register_checks st email_ password_ full_name_ with
  | Some answer => (st, answer)
  | None => register_resume now st email_ full_name_ (bcrypt_hash password_ 10)
  end.

(** [POST /logout] *)
Definition logout (st : state) (req : request) : state * trace :=
  let st' :=
    match cookies req !! "refreshToken" with
    | Some refreshToken =>
        if Js.truthy_string refreshToken then
          {| users := users st;
             refreshTokens := refreshTokens st ∖ {[refreshToken]} |}
        else st
    | None => st
    end in
  (st', (clearAuthCookies env ++
         [Respond 200 [("message", Js.VStr "Logged out successfully")]])%list).


End WithLib.

(** The attributes every cookie instruction of these handlers carries. *)
Definition cookie_attributes_ok (env : process_env) (e : effect) : Prop :=
  match e with
  | SetCookie _ _ o | ClearCookie _ o =>
      httpOnly o = true ∧ sameSite o = "strict" ∧ path o = "/"
      ∧ secure o = String.eqb (NODE_ENV env) "production"
  | _ => True
  end.

(** The value a trace sets the cookie [name] to, if it does. *)
Fixpoint cookie_set (name : string) (t : trace) : option string :=
  match t with
  | [] => None
  | SetCookie n v _ :: t' => if String.eqb n name then Some v else cookie_set name t'
  | _ :: t' => cookie_set name t'
  end.

(** User [i] of the table (from 0) has id [i + 1], in decimal. *)
Definition ids_in_sequence (us : list user) : Prop :=
  map id us = map (fun i => pretty (i + 1)%nat) (seq 0 (length us)).

End AuthRoutes.

(** ** backend/routes/entities.js: the gates in front of every entity route *)

Module EntityRoutes.
Import Http.

Definition entities : list string :=
  [ "contract-metrics"; "token-analytics"; "markets"; "oracle-feeds";
    "admin-logs"; "alerts"; "compliance-metrics"; "security-incidents";
    "risk-assessments"; "ai-model-metrics"; "data-quality-metrics";
    "trust-boundary-events"; "temporal-anomalies"; "treasury-transactions";
    "simulation-scenarios"; "ai-feedback"; "compliance-evidence"; "agents";
    "policy-states"; "agent-decision-logs"; "constitutional-rules";
    "agent-clusters"; "meta-audits"; "governance-proposals";
    "system-trust-scores" ].

(** [authenticateToken, requireResourceAccess(entityName)], the two
    middlewares every route of [createEntityRoutes] runs one after the other
    (behind its rate limiter, in front of validation and the handler).  The
    second runs where the first calls [next()], on the request the first
    leaves. *)
Definition guard (L : Env.lib) (env : Env.process_env)
    (builtin_member : string -> string -> bool) (now : Z)
    (entityName : string) (req : request) : request * trace :=
  let '(req', t) := Authenticate.authenticateToken L env now req in
  (req',
   flat_map
     (fun e => if is_next e
               then Authorize.requireResourceAccess builtin_member entityName req'
               else [e]) t).

End EntityRoutes.

(** ** src/lib/errorLogger.js: the error queue *)

Module ErrorLogger.

Definition maxQueueSize : nat := 50.

(** [addToQueue]: [push], then [shift] when the queue has grown past
    [maxQueueSize]. *)
Definition addToQueue {A : Type} (errorQueue : list A) (errorInfo : A) : list A :=
  let pushed := (errorQueue ++ [errorInfo])%list in
  if (maxQueueSize <? length pushed)%nat then tail pushed else pushed.

(** The queue after logging [infos] one after the other. *)
Definition addAll {A : Type} (errorQueue : list A) (infos : list A) : list A :=
  fold_left addToQueue infos errorQueue.

End ErrorLogger.

(** ** middleware/validate.js *)

Module Validate.

(** One entry of [error.issues]. *)
Record issue := Issue {
  path : list string;
  message : string;
  code : string
}.

(** One entry of the [errors] array of a 400 body. *)
Record entry := Entry {
  field : string;
  entry_message : string;
  entry_code : string
}.

(** What reaches [formatZodError]: a [ZodError] with its issues, or anything
    else with its [message], if it has one. *)
Inductive error :=
| ZodError (issues : list issue)
| OtherError (error_message : option string).

(** [issue.path.join('.')] *)
Definition join (path : list string) : string := String.concat "." path.

(** [formatZodError]: the pair is the [message] and the [errors] of the
    object it returns. *)
Definition formatZodError (e : error) : string * list entry :=
  match e with
  | ZodError issues =>
      ("Validation failed",
       map (fun i =>
              {| field := if Js.truthy_string (join (path i)) then join (path i)
                          else "unknown";
                 entry_message := message i;
                 entry_code := code i |}) issues)
  | OtherError m =>
      ("Validation failed",
       [ {| field := "unknown";
            entry_message :=
              match m with
              | Some s => if Js.truthy_string s then s else "Invalid input"
              | None => "Invalid input"
              end;
            entry_code := "invalid" |} ])
  end.

Section Schemas.
Context {D : Type}.

(** A schema through its [safeParse]: the parsed data, or the issues of the
    error. *)
Definition schema := D -> D + list issue.

(** The three parts of a request that the middleware reads and replaces. *)
Record data := Data {
  body : D;
  query : D;
  params : D
}.

(** A middleware run ends in [next()], with the request as it then is, or
    in [res.status(400).json({ message, errors })]. *)
Inductive outcome :=
| Next (req : data)
| Status400 (response_message : string) (errors : list entry).

Definition respond (formattedError : string * list entry) : outcome :=
  Status400 (fst formattedError) (snd formattedError).

(** [validateBody(schema)] *)
Definition validateBody (s : schema) (req : data) : outcome :=
  match s (body req) with
  | inr issues => respond (formatZodError (ZodError issues))
  | inl d => Next {| body := d; query := query req; params := params req |}
  end.

(** [validateQuery(schema)] *)
Definition validateQuery (s : schema) (req : data) : outcome :=
  match s (query req) with
  | inr issues => respond (formatZodError (ZodError issues))
  | inl d => Next {| body := body req; query := d; params := params req |}
  end.

(** [validateParams(schema)] *)
Definition validateParams (s : schema) (req : data) : outcome :=
  match s (params req) with
  | inr issues => respond (formatZodError (ZodError issues))
  | inl d => Next {| body := body req; query := query req; params := d |}
  end.

(** The [schemas] argument of [validate]; an absent key is [None]. *)
Record schemas := Schemas {
  body_schema : option schema;
  query_schema : option schema;
  params_schema : option schema
}.

(** [validate(schemas)]; the pair threaded through the three blocks is the
    request and the [errors] array so far. *)
Definition validate (ss : schemas) (req : data) : outcome :=
  let '(req, errors) :=
    match body_schema ss with
    | Some s =>
        match s (body req) with
        | inr issues => (req, issues)
        | inl d => ({| body := d; query := query req; params := params req |}, [])
        end
    | None => (req, [])
    end in
  let '(req, errors) :=
    match query_schema ss with
    | Some s =>
        match s (query req) with
        | inr issues => (req, (errors ++ issues)%list)
        | inl d => ({| body := body req; query := d; params := params req |}, errors)
        end
    | None => (req, errors)
    end in
  let '(req, errors) :=
    match params_schema ss with
    | Some s =>
        match s (params req) with
        | inr issues => (req, (errors ++ issues)%list)
        | inl d => ({| body := body req; query := query req; params := d |}, errors)
        end
    | None => (req, errors)
    end in
  if (0 <? length errors)%nat then
    Status400 "Validation failed"
      (map (fun i => {| field := join (path i);
                        entry_message := message i;
                        entry_code := code i |}) errors)
  else Next req.

(** What a part of the request is checked against: [safeParse] of the
    schema when one was given, nothing otherwise. *)
Definition checked (s : option schema) (d : D) : D + list issue :=
  match s with
  | Some s => s d
  | None => inl d
  end.

Definition accepted (r : D + list issue) : bool :=
  match r with inl _ => true | inr _ => false end.

Definition issues_of (r : D + list issue) : list issue :=
  match r with inl _ => [] | inr issues => issues end.

Definition data_of (old : D) (r : D + list issue) : D :=
  match r with inl d => d | inr _ => old end.

End Schemas.
Arguments schema : clear implicits.
Arguments data : clear implicits.
Arguments outcome : clear implicits.
Arguments schemas : clear implicits.

End Validate.

(** * Properties *)

(** ** Role / permission registry *)

Module RolesFacts.
Import Roles.

Lemma isValidRole_iff role :
  isValidRole role = true ↔ role = "admin" ∨ role = "user" ∨ role = "viewer".
Proof.
  unfold isValidRole. rewrite bool_decide_eq_true. cbn.
  rewrite !elem_of_cons, elem_of_nil. tauto.
Qed.

Lemma isValidRole_false role :
  isValidRole role = false →
  role ≠ "admin" ∧ role ≠ "user" ∧ role ≠ "viewer".
Proof.
  intros H. repeat split; intros ->; discriminate H.
Qed.

(** No enumerated role is the name of an inherited property. *)
Lemma valid_role_not_inherited role :
  isValidRole role = true → role ∉ Js.object_prototype_keys.
Proof.
  rewrite isValidRole_iff.
  intros [-> | [-> | ->]]; by apply (bool_decide_unpack (_ ∉ _)).
Qed.

Lemma role_permissions_unknown role :
  isValidRole role = false → ROLE_PERMISSIONS !! role = None.
Proof.
  intros (Ha & Hu & Hv)%isValidRole_false. unfold ROLE_PERMISSIONS.
  by rewrite !lookup_insert_ne, lookup_empty.
Qed.

Lemma levels_unknown role :
  isValidRole role = false → levels !! role = None.
Proof.
  intros (Ha & Hu & Hv)%isValidRole_false. unfold levels.
  by rewrite !lookup_insert_ne, lookup_empty.
Qed.

(** Outside the enumeration and outside [Object.prototype], [hasPermission]
    answers [false]. *)
Lemma hasPermission_unknown_role role (p : Js.value) :
  isValidRole role = false →
  role ∉ Js.object_prototype_keys →
  hasPermission role p = Js.Return false.
Proof.
  intros Hr Hk. unfold hasPermission, Js.get.
  rewrite (role_permissions_unknown _ Hr).
  by rewrite bool_decide_eq_false_2.
Qed.

(** On the name of an inherited property it throws. *)
Lemma hasPermission_inherited_role role (p : Js.value) :
  role ∈ Js.object_prototype_keys →
  ∃ e, hasPermission role p = Js.Throw e.
Proof.
  intros Hk. unfold hasPermission, Js.get.
  assert (isValidRole role = false) as Hr.
  { destruct (isValidRole role) eqn:E; [|done].
    by apply valid_role_not_inherited in E. }
  rewrite (role_permissions_unknown _ Hr), bool_decide_eq_true_2 by done.
  eauto.
Qed.

(** For an enumerated role it is membership in the role's set. *)
Lemma hasPermission_known_role role (p : string) :
  isValidRole role = true →
  hasPermission role p = Js.Return (bool_decide (p ∈ granted role)).
Proof.
  rewrite isValidRole_iff. by intros [-> | [-> | ->]].
Qed.

Lemma hasPermission_never_throws_on_valid role (p : Js.value) :
  isValidRole role = true →
  ∃ b, hasPermission role p = Js.Return b.
Proof.
  rewrite isValidRole_iff. intros [-> | [-> | ->]]; eexists; reflexivity.
Qed.

Lemma getRoleLevel_unknown role :
  isValidRole role = false →
  role ∉ Js.object_prototype_keys →
  getRoleLevel role = Num 0.
Proof.
  intros Hr Hk. unfold getRoleLevel, Js.get.
  rewrite (levels_unknown _ Hr).
  by rewrite bool_decide_eq_false_2.
Qed.

Lemma getRoleLevel_valid role :
  isValidRole role = true →
  ∃ n, getRoleLevel role = Num n ∧ 1 ≤ n ≤ 3.
Proof.
  rewrite isValidRole_iff.
  intros [-> | [-> | ->]]; eexists; (split; [reflexivity | lia]).
Qed.

(** An unknown identity role never reaches the level of an enumerated
    one. *)
Lemma hasRoleLevel_unknown_user userRole requiredRole :
  isValidRole userRole = false →
  isValidRole requiredRole = true →
  hasRoleLevel userRole requiredRole = false.
Proof.
  intros Hu (n & Hn & Hrange)%getRoleLevel_valid.
  unfold hasRoleLevel. rewrite Hn.
  unfold getRoleLevel, Js.get. rewrite (levels_unknown _ Hu).
  case_bool_decide; simpl; [done|].
  rewrite Z.geb_leb. apply Z.leb_gt. lia.
Qed.

Ltac each_member H :=
  repeat (apply elem_of_cons in H as [-> | H];
          [apply (bool_decide_unpack (_ ∈ _)); vm_compute; exact I |]);
  by apply elem_of_nil in H.

Lemma viewer_subset_user :
  (list_to_set viewer_permissions : gset string) ⊆ list_to_set user_permissions.
Proof.
  apply elem_of_subseteq. intros p Hp%elem_of_list_to_set.
  unfold viewer_permissions in Hp. each_member Hp.
Qed.

Lemma user_subset_admin :
  (list_to_set user_permissions : gset string) ⊆ list_to_set admin_permissions.
Proof.
  apply elem_of_subseteq. intros p Hp%elem_of_list_to_set.
  unfold user_permissions in Hp. each_member Hp.
Qed.

Lemma granted_viewer_user : granted "viewer" ⊆ granted "user".
Proof. exact viewer_subset_user. Qed.

Lemma granted_user_admin : granted "user" ⊆ granted "admin".
Proof. exact user_subset_admin. Qed.

Lemma hasPermission_valid role (p : Js.value) :
  isValidRole role = true →
  hasPermission role p = Js.Return (Set_has (granted role) p).
Proof.
  rewrite isValidRole_iff. intros [-> | [-> | ->]]; reflexivity.
Qed.

Lemma hasRoleLevel_valid r1 r2 :
  isValidRole r1 = true → isValidRole r2 = true →
  hasRoleLevel r1 r2 = true →
  r1 = "admin" ∨ (r1 = "user" ∧ r2 ≠ "admin") ∨ (r1 = "viewer" ∧ r2 = "viewer").
Proof.
  rewrite !isValidRole_iff.
  intros [-> | [-> | ->]] [-> | [-> | ->]] H; vm_compute in H;
    first [discriminate H | by auto].
Qed.

(** The granted sets grow with the hierarchy level. *)
Lemma granted_monotone r1 r2 :
  isValidRole r1 = true → isValidRole r2 = true →
  hasRoleLevel r1 r2 = true →
  granted r2 ⊆ granted r1.
Proof.
  intros H1 H2 H.
  destruct (hasRoleLevel_valid _ _ H1 H2 H) as [-> | [[-> Hn] | [-> ->]]].
  - apply isValidRole_iff in H2 as [-> | [-> | ->]].
    + intros x Hx; exact Hx.
    + exact granted_user_admin.
    + etrans; [exact granted_viewer_user | exact granted_user_admin].
  - apply isValidRole_iff in H2 as [-> | [-> | ->]].
    + congruence.
    + intros x Hx; exact Hx.
    + exact granted_viewer_user.
  - intros x Hx; exact Hx.
Qed.

End RolesFacts.

(** ** Claims about the registry *)

Module RolesClaims.
Import Roles RolesFacts.

(** C3 — [hasPermission(role, p)] is claimed to return [false] without
    throwing for every role string outside the enumeration.  The role name
    ["constructor"] is outside the enumeration, yet the lookup
    [ROLE_PERMISSIONS[role]] finds the inherited [Object] function, the
    guard [!rolePermissions] does not fire, and calling its missing [has]
    method throws a [TypeError] for every permission. *)
Theorem hasPermission_throws_on_inherited_name :
  isValidRole "constructor" = false
  ∧ ∀ p : Js.value,
      hasPermission "constructor" p
      = Js.Throw (Js.Err "TypeError" "rolePermissions.has is not a function").
Proof. split; [reflexivity | intros p; reflexivity]. Qed.

(** C9 — permissions grow along the hierarchy: for enumerated roles [r1],
    [r2] with [getRoleLevel r1 >= getRoleLevel r2], every permission [r2]
    holds is held by [r1]; the viewer set is contained in the user set,
    which is contained in the admin set; and admin holds every value of
    [PERMISSIONS]. *)
Theorem permission_monotone_along_hierarchy :
  (∀ (r1 r2 : string) (p : Js.value),
      isValidRole r1 = true → isValidRole r2 = true →
      hasRoleLevel r1 r2 = true →
      hasPermission r2 p = Js.Return true →
      hasPermission r1 p = Js.Return true)
  ∧ granted "viewer" ⊆ granted "user"
  ∧ granted "user" ⊆ granted "admin"
  ∧ (∀ p : string, p ∈ Object_values PERMISSIONS →
       hasPermission "admin" p = Js.Return true).
Proof.
  split; [| split; [exact granted_viewer_user | split; [exact granted_user_admin |]]].
  - intros r1 r2 p H1 H2 Hlevel Hp.
    rewrite (hasPermission_valid _ _ H2) in Hp.
    rewrite (hasPermission_valid _ _ H1). f_equal.
    injection Hp as Hp.
    destruct p as [p | | | |]; try discriminate Hp.
    apply bool_decide_eq_true in Hp. apply bool_decide_eq_true.
    by apply (granted_monotone r1 r2).
  - intros p Hp. rewrite hasPermission_known_role by reflexivity.
    f_equal. apply bool_decide_eq_true.
    change (granted "admin") with (list_to_set admin_permissions : gset string).
    by apply elem_of_list_to_set.
Qed.

Lemma permission_monotone_along_hierarchy_witness :
  hasPermission "user" "risks:read" = Js.Return true.
Proof.
  apply (proj1 permission_monotone_along_hierarchy "user" "viewer" "risks:read");
    reflexivity.
Defined.

End RolesClaims.

(** ** Authorization gates *)

Module AuthorizeFacts.
Import Http Roles RolesFacts Authorize.

Lemma role_rejected_valid role :
  role_rejected role = negb (isValidRole role).
Proof.
  unfold role_rejected, Js.truthy_string.
  destruct (String.eqb_spec role "") as [-> | _]; [reflexivity|].
  by rewrite negb_involutive.
Qed.

(** An HTTP verb is never the name of an inherited property: those all
    contain lower-case letters or underscores. *)
Lemma verb_not_inherited m :
  is_verb m = true → m ∉ Js.object_prototype_keys.
Proof.
  intros Hv Hin. unfold Js.object_prototype_keys in Hin.
  repeat (apply elem_of_cons in Hin as [-> | Hin]; [discriminate Hv |]).
  by apply elem_of_nil in Hin.
Qed.

Lemma methodToAction_other m :
  m ∉ ["GET"; "POST"; "PUT"; "PATCH"; "DELETE"] →
  methodToAction !! m = None.
Proof.
  rewrite !not_elem_of_cons. intros (? & ? & ? & ? & ? & _).
  unfold methodToAction. by rewrite !lookup_insert_ne, lookup_empty.
Qed.

Lemma methodToAction_table verb action :
  (verb, action) ∈ [ ("GET", "read"); ("POST", "create"); ("PUT", "update");
                     ("PATCH", "update"); ("DELETE", "delete") ] →
  Js.get methodToAction verb = Js.Own action.
Proof.
  intros H.
  repeat (apply elem_of_cons in H as [[= -> ->] | H]; [reflexivity |]).
  by apply elem_of_nil in H.
Qed.

(** The table maps the verbs to the four actions only. *)
Lemma methodToAction_actions m action :
  Js.get methodToAction m = Js.Own action →
  action ∈ ["read"; "create"; "update"; "delete"].
Proof.
  unfold Js.get. destruct (methodToAction !! m) as [a|] eqn:Hm;
    [| by case_bool_decide].
  intros [= <-]. unfold methodToAction in Hm.
  repeat (apply lookup_insert_Some in Hm as [[_ <-] | [_ Hm]];
          [apply (bool_decide_unpack _); vm_compute; exact I |]).
  by rewrite lookup_empty in Hm.
Qed.

(** No role holds the empty string as a permission. *)
Lemma granted_nonempty role : "" ∉ granted role.
Proof.
  unfold granted.
  destruct (ROLE_PERMISSIONS !! role) as [s|] eqn:Hrole;
    [| apply not_elem_of_empty].
  unfold ROLE_PERMISSIONS in Hrole.
  repeat (apply lookup_insert_Some in Hrole as [[_ <-] | [_ Hrole]];
          [apply (bool_decide_unpack _); vm_compute; exact I |]).
  by rewrite lookup_empty in Hrole.
Qed.

Section Runtime.
Variable builtin_member : string → string → bool.

(** What [getResourcePermission] returns for one of the four actions is
    read off the Resource-Action Map when the resource is one of its
    keys. *)
Lemma getResourcePermission_mapped resourceName entry action :
  RESOURCE_PERMISSIONS !! resourceName = Some entry →
  action ∈ ["read"; "create"; "update"; "delete"] →
  getResourcePermission builtin_member resourceName action
  = match entry !! action with
    | Some (Some p) => if Js.truthy_string p then Some (Js.VStr p) else None
    | _ => None
    end.
Proof.
  intros Hentry Haction. unfold getResourcePermission, Js.get. rewrite Hentry.
  destruct (entry !! action) as [[p|]|]; [done | done |].
  rewrite bool_decide_eq_false_2; [done |].
  repeat (apply elem_of_cons in Haction as [-> | Haction];
          [apply (bool_decide_unpack _); vm_compute; exact I |]).
  by apply elem_of_nil in Haction.
Qed.

(** For a resource that is no key of the map it returns [null], or a
    builtin found through the prototype chain, never a permission. *)
Lemma getResourcePermission_unmapped resourceName action :
  RESOURCE_PERMISSIONS !! resourceName = None →
  getResourcePermission builtin_member resourceName action = None
  ∨ ∃ path,
      getResourcePermission builtin_member resourceName action
      = Some (Js.VBuiltin path).
Proof.
  intros Hnone. unfold getResourcePermission, Js.get. rewrite Hnone.
  case_bool_decide; [| by left].
  destruct (builtin_member resourceName action); [right; by eexists | by left].
Qed.

(** Once the action is known the gate either passes or answers 403, and
    it passes exactly when a permission is mapped and the role holds
    it. *)
Lemma check_resource_decides resourceName role action :
  isValidRole role = true →
  let t := check_resource builtin_member resourceName role action in
  (t = [Next] ∨ denied_with 403 t)
  ∧ (continues t = true ↔
     ∃ p, getResourcePermission builtin_member resourceName action = Some p
          ∧ hasPermission role p = Js.Return true).
Proof.
  intros Hrole. unfold check_resource. cbv zeta.
  destruct (getResourcePermission _ _ _) as [p|].
  - destruct (hasPermission_never_throws_on_valid role p Hrole) as [b Hb].
    rewrite Hb. destruct b.
    + split; [by left |]. split; [eauto | done].
    + split; [by right |]. split; [done |].
      intros (p' & [= <-] & Hp'). congruence.
  - split; [by right |]. split; [done |]. by intros (p' & ? & _).
Qed.

Lemma requireResourceAccess_valid resourceName req u action :
  user req = Some u →
  isValidRole (role u) = true →
  Js.get methodToAction (method req) = Js.Own action →
  requireResourceAccess builtin_member resourceName req
  = check_resource builtin_member resourceName (role u) action.
Proof.
  intros Hu Hrole Hm. unfold requireResourceAccess.
  by rewrite Hu, role_rejected_valid, Hrole, Hm.
Qed.

Lemma requireResourceAccess_invalid_role resourceName req u :
  user req = Some u →
  isValidRole (role u) = false →
  requireResourceAccess builtin_member resourceName req = [invalid_role].
Proof.
  intros Hu Hrole. unfold requireResourceAccess.
  by rewrite Hu, role_rejected_valid, Hrole.
Qed.

(** With an action from the table the gate never passes without a mapped
    permission that the role holds; it answers 403 otherwise. *)
Lemma requireResourceAccess_403 resourceName req u action :
  user req = Some u →
  Js.get methodToAction (method req) = Js.Own action →
  (getResourcePermission builtin_member resourceName action = None
   ∨ ∃ p, getResourcePermission builtin_member resourceName action = Some p
          ∧ hasPermission (role u) p = Js.Return false) →
  denied_with 403 (requireResourceAccess builtin_member resourceName req).
Proof.
  intros Hu Hm Hdeny.
  destruct (isValidRole (role u)) eqn:Hrole.
  - rewrite (requireResourceAccess_valid _ _ _ _ Hu Hrole Hm).
    unfold check_resource.
    destruct Hdeny as [-> | (p & -> & ->)]; done.
  - by rewrite (requireResourceAccess_invalid_role _ _ _ Hu Hrole).
Qed.

End Runtime.

(** Every action other than [read] is [null] for audit logs. *)
Lemma audit_logs_immutable builtin_member action :
  action ∈ ["create"; "update"; "delete"] →
  getResourcePermission builtin_member "audit-logs" action = None.
Proof.
  intros H.
  repeat (apply elem_of_cons in H as [-> | H]; [reflexivity |]).
  by apply elem_of_nil in H.
Qed.

(** An identity whose role is outside the enumeration is refused by
    [requireRoleLevel] whatever the minimum is. *)
Lemma requireRoleLevel_unknown_identity minimumRole req u :
  user req = Some u →
  isValidRole (role u) = false →
  requireRoleLevel minimumRole req = [invalid_role].
Proof.
  intros Hu Hrole. unfold requireRoleLevel.
  by rewrite Hu, role_rejected_valid, Hrole.
Qed.

End AuthorizeFacts.

Module AuthorizeClaims.
Import Http Roles RolesFacts Authorize AuthorizeFacts.

(** C2, as stated, fails: the request below is authenticated and its verb
    OPTIONS is none of the five, yet the answer is 403 "Invalid user role",
    not 405, because the role check comes before the verb lookup. *)
Lemma requireResourceAccess_role_checked_before_verb :
  let req := Sample.request_of "OPTIONS" ∅ (Some Sample.guest) in
  let t := requireResourceAccess Sample.builtin_member "contract-metrics" req in
  user req = Some Sample.guest
  ∧ is_verb (method req) = true
  ∧ Js.get methodToAction (method req) = Js.Undefined
  ∧ t = [invalid_role]
  ∧ status_of t = Some 403
  ∧ ¬ denied_with 405 t.
Proof.
  cbv zeta. repeat split; try reflexivity. intros [H _]. discriminate H.
Qed.

(** C2 (amended) — [requireResourceAccess] on an authenticated request.  For
    an identity whose role is enumerated, GET, POST, PUT, PATCH and DELETE
    are looked up as read, create, update, update and delete, the gate
    passes exactly when the Resource-Action Map gives a permission for that
    action which the role holds, and any other HTTP verb is answered 405.
    For every identity, a missing or [null] map entry is answered 403 (so
    create, update and delete on audit logs are refused for every role,
    admin included), and so is a role that lacks the mapped permission.  An
    identity whose role is not enumerated is answered 403 before the verb is
    looked at.  The last three parts say the same of the Resource-Action Map
    itself: a resource that is no key of [RESOURCE_PERMISSIONS], and an
    action that its entry lacks or maps to [null], are answered 403 for
    every identity, and an enumerated role passes exactly when the entry of
    the resource maps the action to a permission in the role's set. *)
Theorem requireResourceAccess_contract
    (builtin_member : string → string → bool)
    (resourceName : string) (req : request) (u : identity) :
  user req = Some u →
  let t := requireResourceAccess builtin_member resourceName req in
  (∀ verb action,
      (verb, action) ∈ [ ("GET", "read"); ("POST", "create"); ("PUT", "update");
                         ("PATCH", "update"); ("DELETE", "delete") ] →
      method req = verb →
      isValidRole (role u) = true →
      (t = [Next] ∨ denied_with 403 t)
      ∧ (continues t = true ↔
         ∃ p, getResourcePermission builtin_member resourceName action = Some p
              ∧ hasPermission (role u) p = Js.Return true))
  ∧ (is_verb (method req) = true →
     method req ∉ ["GET"; "POST"; "PUT"; "PATCH"; "DELETE"] →
     isValidRole (role u) = true →
     denied_with 405 t)
  ∧ (∀ action,
       Js.get methodToAction (method req) = Js.Own action →
       getResourcePermission builtin_member resourceName action = None →
       denied_with 403 t)
  ∧ (resourceName = "audit-logs" →
     method req ∈ ["POST"; "PUT"; "PATCH"; "DELETE"] →
     denied_with 403 t)
  ∧ (∀ action p,
       Js.get methodToAction (method req) = Js.Own action →
       getResourcePermission builtin_member resourceName action = Some p →
       hasPermission (role u) p = Js.Return false →
       denied_with 403 t)
  ∧ (isValidRole (role u) = false → denied_with 403 t)
  ∧ (∀ action,
       Js.get methodToAction (method req) = Js.Own action →
       RESOURCE_PERMISSIONS !! resourceName = None →
       denied_with 403 t)
  ∧ (∀ action entry,
       Js.get methodToAction (method req) = Js.Own action →
       RESOURCE_PERMISSIONS !! resourceName = Some entry →
       entry !! action = None ∨ entry !! action = Some None →
       denied_with 403 t)
  ∧ (∀ action,
       Js.get methodToAction (method req) = Js.Own action →
       isValidRole (role u) = true →
       (continues t = true ↔
        ∃ entry p,
          RESOURCE_PERMISSIONS !! resourceName = Some entry
          ∧ entry !! action = Some (Some p)
          ∧ p ∈ granted (role u))).
Proof.
  intros Hu t. subst t.
  split; [| split; [| split; [| split; [| split; [| split; [| split; [| split]]]]]]].
  - intros verb action Htable <- Hrole.
    apply methodToAction_table in Htable.
    rewrite (requireResourceAccess_valid _ _ _ _ _ Hu Hrole Htable).
    by apply check_resource_decides.
  - intros Hverb Hother Hrole. unfold requireResourceAccess.
    rewrite Hu. cbv zeta. rewrite role_rejected_valid, Hrole. cbn [negb].
    unfold Js.get. rewrite (methodToAction_other _ Hother).
    rewrite bool_decide_eq_false_2 by by apply verb_not_inherited.
    done.
  - intros action Hm Hnone.
    apply (requireResourceAccess_403 _ _ _ _ _ Hu Hm). by left.
  - intros -> Hin.
    assert (∃ action, Js.get methodToAction (method req) = Js.Own action
                      ∧ action ∈ ["create"; "update"; "delete"])
      as (action & Hm & Ha).
    { repeat (apply elem_of_cons in Hin as [-> | Hin];
              [eexists; split; [reflexivity | set_solver] |]).
      by apply elem_of_nil in Hin. }
    apply (requireResourceAccess_403 _ _ _ _ _ Hu Hm).
    left. by apply audit_logs_immutable.
  - intros action p Hm Hsome Hlacks.
    apply (requireResourceAccess_403 _ _ _ _ _ Hu Hm). eauto.
  - intros Hrole.
    by rewrite (requireResourceAccess_invalid_role _ _ _ _ Hu Hrole).
  - intros action Hm Hnone.
    destruct (isValidRole (role u)) eqn:Hrole;
      [| by rewrite (requireResourceAccess_invalid_role _ _ _ _ Hu Hrole)].
    apply (requireResourceAccess_403 _ _ _ _ _ Hu Hm).
    destruct (getResourcePermission_unmapped builtin_member _ action Hnone)
      as [Hg | [path Hg]]; [by left |].
    right. exists (Js.VBuiltin path). split; [exact Hg |].
    by rewrite (hasPermission_valid _ _ Hrole).
  - intros action entry Hm Hentry Hnull.
    apply (requireResourceAccess_403 _ _ _ _ _ Hu Hm). left.
    rewrite (getResourcePermission_mapped _ _ _ _ Hentry
               (methodToAction_actions _ _ Hm)).
    by destruct Hnull as [-> | ->].
  - intros action Hm Hrole.
    rewrite (requireResourceAccess_valid _ _ _ _ _ Hu Hrole Hm).
    destruct (check_resource_decides builtin_member resourceName (role u) action
                Hrole) as [_ ->].
    pose proof (methodToAction_actions _ _ Hm) as Haction.
    split.
    + intros (v & Hg & Hhas).
      rewrite (hasPermission_valid _ _ Hrole) in Hhas.
      destruct v as [p | | | |]; try discriminate Hhas.
      injection Hhas as Hp%bool_decide_eq_true.
      destruct (RESOURCE_PERMISSIONS !! resourceName) as [entry|] eqn:Hentry.
      * rewrite (getResourcePermission_mapped _ _ _ _ Hentry Haction) in Hg.
        destruct (entry !! action) as [[q|]|] eqn:Hq; try discriminate Hg.
        destruct (Js.truthy_string q); [| discriminate Hg].
        injection Hg as ->. by exists entry, p.
      * destruct (getResourcePermission_unmapped builtin_member _ action Hentry)
          as [Hnone | [path Hpath]]; congruence.
    + intros (entry & p & Hentry & Hp & Hgranted).
      exists (Js.VStr p). split.
      * rewrite (getResourcePermission_mapped _ _ _ _ Hentry Haction), Hp.
        unfold Js.truthy_string.
        destruct (String.eqb_spec p "") as [-> | _]; [| done].
        by apply granted_nonempty in Hgranted.
      * rewrite (hasPermission_valid _ _ Hrole). cbn.
        by rewrite bool_decide_eq_true_2.
Qed.

Lemma requireResourceAccess_contract_witness :
  denied_with 403
    (requireResourceAccess Sample.builtin_member "audit-logs"
       (Sample.request_of "DELETE" ∅ (Some Sample.admin)))
  ∧ denied_with 405
      (requireResourceAccess Sample.builtin_member "contract-metrics"
         (Sample.request_of "OPTIONS" ∅ (Some Sample.viewer)))
  ∧ continues
      (requireResourceAccess Sample.builtin_member "contract-metrics"
         (Sample.request_of "GET" ∅ (Some Sample.viewer))) = true
  ∧ denied_with 403
      (requireResourceAccess Sample.builtin_member "markets"
         (Sample.request_of "GET" ∅ (Some Sample.admin))).
Proof.
  split; [| split; [| split]].
  - pose proof (requireResourceAccess_contract Sample.builtin_member
                  "audit-logs" (Sample.request_of "DELETE" ∅ (Some Sample.admin))
                  Sample.admin eq_refl) as H.
    cbv zeta in H. destruct H as (_ & _ & _ & H & _).
    apply H; [reflexivity |].
    apply (bool_decide_unpack _). vm_compute. exact I.
  - pose proof (requireResourceAccess_contract Sample.builtin_member
                  "contract-metrics" (Sample.request_of "OPTIONS" ∅ (Some Sample.viewer))
                  Sample.viewer eq_refl) as H.
    cbv zeta in H. destruct H as (_ & H & _).
    apply H; [reflexivity | | reflexivity].
    apply (bool_decide_unpack _). vm_compute. exact I.
  - pose proof (requireResourceAccess_contract Sample.builtin_member
                  "contract-metrics" (Sample.request_of "GET" ∅ (Some Sample.viewer))
                  Sample.viewer eq_refl) as H.
    cbv zeta in H. destruct H as (H & _).
    destruct (H "GET" "read") as [_ Hiff];
      [apply (bool_decide_unpack _); vm_compute; exact I
      | reflexivity | reflexivity |].
    apply Hiff. exists (Js.VStr "contracts:read"). split; reflexivity.
  - pose proof (requireResourceAccess_contract Sample.builtin_member
                  "markets" (Sample.request_of "GET" ∅ (Some Sample.admin))
                  Sample.admin eq_refl) as H.
    cbv zeta in H. destruct H as (_ & _ & _ & _ & _ & _ & H & _).
    apply (H "read"); reflexivity.
Defined.

(** C6 — [requireOwnership]: without an identity the answer is 401 and the
    predicate is not awaited; an admin passes whatever the predicate would
    do (it is not awaited either); for any other identity a predicate that
    resolves to a falsy value gives 403 and one that throws gives 500,
    never a pass. *)
Theorem requireOwnership_contract
    (ownershipCheck : request → Js.settled bool) (req : request) :
  let t := requireOwnership ownershipCheck req in
  (user req = None →
     denied_with 401 t ∧ existsb is_await t = false)
  ∧ (∀ u, user req = Some u → role u = "admin" → t = [Next])
  ∧ (∀ u, user req = Some u → role u ≠ "admin" →
       ownershipCheck req = Js.Fulfilled false → denied_with 403 t)
  ∧ (∀ u e, user req = Some u → role u ≠ "admin" →
       ownershipCheck req = Js.Rejected e → denied_with 500 t).
Proof.
  unfold requireOwnership. cbv zeta.
  split; [| split; [| split]].
  - intros ->. by split.
  - intros u -> ->. reflexivity.
  - intros u -> Hrole%String.eqb_neq ->. by rewrite Hrole.
  - intros u e -> Hrole%String.eqb_neq ->. by rewrite Hrole.
Qed.

Lemma requireOwnership_contract_witness :
  requireOwnership (λ _, Js.Rejected (Js.Err "Error" "database down"))
    (Sample.request_of "PUT" ∅ (Some Sample.admin)) = [Next]
  ∧ denied_with 403
      (requireOwnership (λ _, Js.Fulfilled false)
         (Sample.request_of "PUT" ∅ (Some Sample.regular)))
  ∧ denied_with 500
      (requireOwnership (λ _, Js.Rejected (Js.Err "Error" "database down"))
         (Sample.request_of "PUT" ∅ (Some Sample.regular)))
  ∧ denied_with 401
      (requireOwnership (λ _, Js.Fulfilled true)
         (Sample.request_of "PUT" ∅ None)).
Proof.
  split; [| split; [| split]].
  - apply (proj1 (proj2 (requireOwnership_contract _ _)) Sample.admin);
      reflexivity.
  - apply (proj1 (proj2 (proj2 (requireOwnership_contract _ _))) Sample.regular);
      [reflexivity | discriminate | reflexivity].
  - apply (proj2 (proj2 (proj2 (requireOwnership_contract _ _))) Sample.regular
             (Js.Err "Error" "database down"));
      [reflexivity | discriminate | reflexivity].
  - apply (proj1 (requireOwnership_contract _ _)). reflexivity.
Defined.

(** C7 — every authorization path involving an unknown role is claimed to
    deny.  With the unknown role ["superadmin"] as the configured minimum,
    [getRoleLevel] gives it level 0, [hasRoleLevel] holds for every
    enumerated role, and [requireRoleLevel] lets a viewer through.  And
    [getRoleLevel] does not return 0 on ["constructor"], which is outside
    the enumeration: [levels[role]] finds the inherited [Object]
    function. *)
Theorem requireRoleLevel_unknown_minimum_passes :
  isValidRole "superadmin" = false
  ∧ getRoleLevel "superadmin" = Num 0
  ∧ hasRoleLevel "viewer" "superadmin" = true
  ∧ hasRoleLevel "user" "superadmin" = true
  ∧ hasRoleLevel "admin" "superadmin" = true
  ∧ requireRoleLevel "superadmin"
      (Sample.request_of "POST" ∅ (Some Sample.viewer)) = [Next]
  ∧ isValidRole "constructor" = false
  ∧ getRoleLevel "constructor" = Builtin "constructor".
Proof. repeat split. Qed.

End AuthorizeClaims.

(** ** Authentication middleware *)

Module AuthenticateClaims.
Import Http Env Authenticate.

Lemma accessToken_none req :
  accessToken req = None ↔
  cookies req !! "accessToken" = None ∨ cookies req !! "accessToken" = Some "".
Proof.
  unfold accessToken, Js.truthy_string.
  destruct (cookies req !! "accessToken") as [t|]; [| by intuition].
  destruct (String.eqb_spec t "") as [-> | Hne]; cbn; [by intuition |].
  split; [done | intros [? | [= ?]]; done].
Qed.

Lemma accessToken_some req token :
  accessToken req = Some token ↔
  cookies req !! "accessToken" = Some token ∧ token ≠ "".
Proof.
  unfold accessToken, Js.truthy_string.
  destruct (cookies req !! "accessToken") as [t|]; [| by intuition].
  destruct (String.eqb_spec t "") as [-> | Hne]; cbn.
  - split; [done | intros [[= <-] ?]; done].
  - split; [intros [= <-]; done | intros [[= <-] ?]; done].
Qed.

(** C4 — strict mode.  Without an access token cookie the answer is 401
    "Access token required".  With one, a verification failure named
    [TokenExpiredError] gives 401 "Access token expired", one named
    [JsonWebTokenError] gives 401 "Invalid access token", any other gives
    401 "Authentication failed"; none of these calls [next()] or touches
    the request.  When verification succeeds the decoded payload becomes
    [req.user] and the request goes on. *)
Theorem authenticateToken_contract
    (L : lib) (env : process_env) (now : Z) (req : request) :
  let r := authenticateToken L env now req in
  (cookies req !! "accessToken" = None ∨ cookies req !! "accessToken" = Some "" →
     r = (req, [reject "Access token required"]))
  ∧ (∀ token error,
       cookies req !! "accessToken" = Some token → token ≠ "" →
       jwt_verify L token (JWT_SECRET env) now = Js.Throw error →
       (Js.name error = "TokenExpiredError" →
          r = (req, [reject "Access token expired"]))
       ∧ (Js.name error = "JsonWebTokenError" →
          r = (req, [reject "Invalid access token"]))
       ∧ (Js.name error ≠ "TokenExpiredError" →
          Js.name error ≠ "JsonWebTokenError" →
          r = (req, [reject "Authentication failed"])))
  ∧ (∀ token decoded,
       cookies req !! "accessToken" = Some token → token ≠ "" →
       jwt_verify L token (JWT_SECRET env) now = Js.Return decoded →
       r = (set_user req decoded, [Next]) ∧ user (fst r) = Some decoded)
  ∧ (∀ msg, status_of [reject msg] = Some 401
            ∧ field "message" (default [] (body_of [reject msg])) = Some (Js.VStr msg)).
Proof.
  cbv zeta. unfold authenticateToken.
  split; [| split; [| split]].
  - intros H%accessToken_none. by rewrite H.
  - intros token error Hc Hne Hv.
    rewrite (proj2 (accessToken_some req token) (conj Hc Hne)), Hv.
    split; [| split].
    + intros ->. reflexivity.
    + intros ->. reflexivity.
    + intros H1%String.eqb_neq H2%String.eqb_neq. by rewrite H1, H2.
  - intros token decoded Hc Hne Hv.
    rewrite (proj2 (accessToken_some req token) (conj Hc Hne)), Hv. done.
  - intros msg. done.
Qed.

Lemma authenticateToken_contract_witness :
  status_of
    (snd (authenticateToken Reference.lib Reference.env (Sample.t0 + 15 * 60 * 1000)
            (Sample.request_of "GET" {["accessToken" := Sample.admin_access_token]} None)))
  = Some 401.
Proof.
  pose proof (authenticateToken_contract Reference.lib Reference.env
                (Sample.t0 + 15 * 60 * 1000)
                (Sample.request_of "GET"
                   {["accessToken" := Sample.admin_access_token]} None)) as H.
  cbv zeta in H. destruct H as (_ & H & _).
  destruct (H Sample.admin_access_token (Js.Err "TokenExpiredError" "jwt expired"))
    as (-> & _); [reflexivity | discriminate | reflexivity | reflexivity |].
  reflexivity.
Defined.

(** C5 — optional mode never answers and always calls [next()].  Without a
    token nothing else happens and [req.user] is what it was; with a token
    that fails verification (for whatever reason, expiry included) a warning
    is logged and [req.user] is left as it was; with a token that verifies,
    the decoded payload becomes [req.user] and nothing else of the request
    changes; and [req.user] only ever changes in that last case. *)
Theorem optionalAuth_contract
    (L : lib) (env : process_env) (now : Z) (req : request) :
  let r := optionalAuth L env now req in
  (status_of (snd r) = None ∧ continues (snd r) = true)
  ∧ (cookies req !! "accessToken" = None ∨ cookies req !! "accessToken" = Some "" →
     r = (req, [Next]))
  ∧ (∀ token error,
       cookies req !! "accessToken" = Some token → token ≠ "" →
       jwt_verify L token (JWT_SECRET env) now = Js.Throw error →
       r = (req, [ConsoleWarn "Optional auth token invalid:" (Js.message error); Next]))
  ∧ (∀ token decoded,
       cookies req !! "accessToken" = Some token → token ≠ "" →
       jwt_verify L token (JWT_SECRET env) now = Js.Return decoded →
       r = (set_user req decoded, [Next]))
  ∧ (fst r ≠ req →
     ∃ token decoded,
       cookies req !! "accessToken" = Some token
       ∧ jwt_verify L token (JWT_SECRET env) now = Js.Return decoded
       ∧ user (fst r) = Some decoded)
  ∧ (∀ token decoded,
       cookies req !! "accessToken" = Some token → token ≠ "" →
       jwt_verify L token (JWT_SECRET env) now = Js.Return decoded →
       user (fst r) = Some decoded
       ∧ method (fst r) = method req ∧ cookies (fst r) = cookies req
       ∧ headers (fst r) = headers req ∧ ip (fst r) = ip req)
  ∧ ((cookies req !! "accessToken" = None ∨ cookies req !! "accessToken" = Some ""
      ∨ ∃ token error,
          cookies req !! "accessToken" = Some token
          ∧ jwt_verify L token (JWT_SECRET env) now = Js.Throw error) →
     user (fst r) = user req)
  ∧ (user (fst r) ≠ user req →
     ∃ token decoded,
       cookies req !! "accessToken" = Some token ∧ token ≠ ""
       ∧ jwt_verify L token (JWT_SECRET env) now = Js.Return decoded
       ∧ user (fst r) = Some decoded).
Proof.
  cbv zeta. unfold optionalAuth.
  split; [| split; [| split; [| split; [| split; [| split; [| split]]]]]].
  - destruct (accessToken req) as [token|]; [| done].
    by destruct (jwt_verify L token (JWT_SECRET env) now).
  - intros H%accessToken_none. by rewrite H.
  - intros token error Hc Hne Hv.
    by rewrite (proj2 (accessToken_some req token) (conj Hc Hne)), Hv.
  - intros token decoded Hc Hne Hv.
    by rewrite (proj2 (accessToken_some req token) (conj Hc Hne)), Hv.
  - destruct (accessToken req) as [token|] eqn:Ht; [| done].
    apply accessToken_some in Ht as [Hc _].
    destruct (jwt_verify L token (JWT_SECRET env) now) as [decoded|] eqn:Hv;
      [| done].
    intros _. by exists token, decoded.
  - intros token decoded Hc Hne Hv.
    by rewrite (proj2 (accessToken_some req token) (conj Hc Hne)), Hv.
  - destruct (accessToken req) as [token|] eqn:Ht; [| done].
    apply accessToken_some in Ht as [Hc Hne].
    destruct (jwt_verify L token (JWT_SECRET env) now) as [decoded|] eqn:Hv;
      [| done].
    intros [Hnone | [Hempty | (token' & error & Hc' & Hv')]]; congruence.
  - destruct (accessToken req) as [token|] eqn:Ht; [| done].
    apply accessToken_some in Ht as [Hc Hne].
    destruct (jwt_verify L token (JWT_SECRET env) now) as [decoded|] eqn:Hv;
      [| done].
    intros _. by exists token, decoded.
Qed.

Lemma optionalAuth_contract_witness :
  optionalAuth Reference.lib Reference.env (Sample.t0 + 15 * 60 * 1000)
    (Sample.request_of "GET" {["accessToken" := Sample.admin_access_token]} None)
  = (Sample.request_of "GET" {["accessToken" := Sample.admin_access_token]} None,
     [ConsoleWarn "Optional auth token invalid:" "jwt expired"; Next])
  ∧ user (fst (optionalAuth Reference.lib Reference.env (Sample.t0 + 1000)
                 (Sample.request_of "GET"
                    {["accessToken" := Sample.admin_access_token]} None)))
    = Some Sample.admin.
Proof.
  split.
  - pose proof (optionalAuth_contract Reference.lib Reference.env
                  (Sample.t0 + 15 * 60 * 1000)
                  (Sample.request_of "GET"
                     {["accessToken" := Sample.admin_access_token]} None)) as H.
    cbv zeta in H. destruct H as (_ & _ & H & _).
    apply (H Sample.admin_access_token (Js.Err "TokenExpiredError" "jwt expired"));
      [reflexivity | discriminate | reflexivity].
  - pose proof (optionalAuth_contract Reference.lib Reference.env
                  (Sample.t0 + 1000)
                  (Sample.request_of "GET"
                     {["accessToken" := Sample.admin_access_token]} None)) as H.
    cbv zeta in H. destruct H as (_ & _ & _ & _ & _ & H & _).
    apply (H Sample.admin_access_token Sample.admin);
      [reflexivity | discriminate | reflexivity].
Defined.

End AuthenticateClaims.

(** ** Refresh-token rotation *)

Module AuthFacts.
Import Http Env Auth.

Section WithLib.
Variable L : lib.
Variable env : process_env.

(** [POST /refresh] answers 200 or 401. *)
Lemma refresh_status now st req :
  status_of (snd (refresh L env now st req)) = Some 200
  ∨ status_of (snd (refresh L env now st req)) = Some 401.
Proof.
  unfold refresh.
  repeat (case_match; try (by left); try (by right)).
Qed.

(** A token that is not registered is refused, whatever [jwt.verify]
    would say about it. *)
Lemma refresh_unregistered now st req token :
  cookies req !! "refreshToken" = Some token →
  token ∉ refreshTokens st →
  refresh L env now st req
  = (st, (clearAuthCookies env ++
          [Respond 401 [("error", Js.VStr "Invalid refresh token")]])%list).
Proof.
  intros Hc Hnot. unfold refresh. rewrite Hc.
  rewrite (bool_decide_eq_false_2 _ Hnot). cbn [negb].
  by rewrite orb_true_r.
Qed.

(** A successful rotation took a registered token out and put the token
    of the new refresh cookie in. *)
Lemma refresh_success now st req :
  status_of (snd (refresh L env now st req)) = Some 200 →
  ∃ token u accessToken newRefreshToken,
    cookies req !! "refreshToken" = Some token
    ∧ token ∈ refreshTokens st
    ∧ generateTokens L env now u = Js.Return (accessToken, newRefreshToken)
    ∧ refreshTokens (fst (refresh L env now st req))
      = {[newRefreshToken]} ∪ (refreshTokens st ∖ {[token]})
    ∧ users (fst (refresh L env now st req)) = users st.
Proof.
  unfold refresh.
  destruct (cookies req !! "refreshToken") as [token|]; [| done].
  destruct (negb (Js.truthy_string token)) eqn:Ht; [done |].
  case_bool_decide as Hin; [| done]. cbn [negb orb].
  destruct (jwt_verify L token (JWT_REFRESH_SECRET env) now) as [decoded|];
    [| done].
  destruct (find _ (users st)) as [u|]; [| done].
  destruct (generateTokens L env now u) as [[a r]|] eqn:Hg; [| done].
  intros _. by exists token, u, a, r.
Qed.

(** After a successful rotation the old token is still registered exactly
    when the new refresh token is the same string. *)
Lemma refresh_old_token_kept now st req token u a r :
  cookies req !! "refreshToken" = Some token →
  status_of (snd (refresh L env now st req)) = Some 200 →
  (∀ u' a' r', generateTokens L env now u' = Js.Return (a', r') → r' = r) →
  generateTokens L env now u = Js.Return (a, r) →
  token ∈ refreshTokens (fst (refresh L env now st req)) ↔ r = token.
Proof.
  intros Hc Hok Hsame Hg.
  destruct (refresh_success _ _ _ Hok)
    as (token' & u' & a' & r' & Hc' & Hin & Hg' & Hreg & _).
  rewrite Hc in Hc'. injection Hc' as <-.
  rewrite (Hsame _ _ _ Hg') in Hreg. rewrite Hreg.
  rewrite elem_of_union, elem_of_singleton, elem_of_difference, elem_of_singleton.
  split; [intros [Heq | [_ Hne]]; [done | by destruct Hne] | intros ->; by left].
Qed.

(** When the new token differs from the old one, the old one is gone and
    presenting it again is refused. *)
Lemma refresh_replay_refused now now' st req token :
  cookies req !! "refreshToken" = Some token →
  status_of (snd (refresh L env now st req)) = Some 200 →
  (∀ u a r, generateTokens L env now u = Js.Return (a, r) → r ≠ token) →
  (token ∉ refreshTokens (fst (refresh L env now st req)))
  ∧ status_of (snd (refresh L env now' (fst (refresh L env now st req)) req))
    = Some 401.
Proof.
  intros Hc Hok Hfresh.
  destruct (refresh_success _ _ _ Hok) as (token' & u & a & r & Hc' & Hin & Hg & Hreg & _).
  rewrite Hc in Hc'. injection Hc' as <-.
  assert (token ∉ refreshTokens (fst (refresh L env now st req))) as Hgone.
  { rewrite Hreg. specialize (Hfresh _ _ _ Hg).
    rewrite elem_of_union, elem_of_singleton, elem_of_difference,
      elem_of_singleton.
    intros [Heq | [_ Hne]]; [by apply Hfresh | by apply Hne]. }
  split; [done |].
  by rewrite (refresh_unregistered _ _ _ _ Hc Hgone).
Qed.

(** Whenever the answer is 401 the state is the one before the request. *)
Lemma refresh_401_unchanged now st req :
  status_of (snd (refresh L env now st req)) = Some 401 →
  fst (refresh L env now st req) = st.
Proof.
  unfold refresh.
  repeat (case_match; try done).
Qed.

End WithLib.

End AuthFacts.

Module AuthClaims.
Import Http Env Auth AuthFacts.

(** C1 — rotation is claimed to always invalidate the old refresh token.
    Under libraries whose token text is a function of payload, secret and
    issue second (as HS256 tokens are), the admin logs in at [t0] and
    rotates the token half a second later, within the same second.
    [generateTokens] returns the very same refresh token, so
    [refreshTokens.delete] followed by [refreshTokens.add] leaves it
    registered, and presenting the old token once more is answered 200
    again, not 401. *)
Theorem refresh_same_second_keeps_old_token :
  let login1 :=
    login Reference.lib Reference.env Sample.t0 (initial Sample.loaded)
      "admin@lumanagi.com" "demo123" in
  let req :=
    Sample.request_of "POST" {["refreshToken" := Sample.admin_refresh_token]} None in
  let rotate1 :=
    refresh Reference.lib Reference.env (Sample.t0 + 500) (fst login1) req in
  let rotate2 :=
    refresh Reference.lib Reference.env (Sample.t0 + 800) (fst rotate1) req in
  status_of (snd login1) = Some 200
  ∧ elements (refreshTokens (fst login1)) = [Sample.admin_refresh_token]
  ∧ status_of (snd rotate1) = Some 200
  ∧ elements (refreshTokens (fst rotate1)) = [Sample.admin_refresh_token]
  ∧ status_of (snd rotate2) = Some 200.
Proof. vm_compute. repeat split. Qed.

(** C10 — whenever [POST /refresh] answers 401 the state, and with it the
    refresh token registry, is exactly what it was before the request.  The
    answer is 401 when there is no refresh cookie, when the token is not
    registered, when [jwt.verify] throws (expiry included: a registered
    token that has expired is still registered afterwards), and when no
    user has the decoded id. *)
Theorem refresh_failure_leaves_registry
    (L : lib) (env : process_env) (now : Z) (st : state) (req : request) :
  let r := refresh L env now st req in
  (status_of (snd r) = Some 401 → fst r = st)
  ∧ (cookies req !! "refreshToken" = None → status_of (snd r) = Some 401)
  ∧ (∀ token,
       cookies req !! "refreshToken" = Some token →
       token ∉ refreshTokens st →
       status_of (snd r) = Some 401)
  ∧ (∀ token error,
       cookies req !! "refreshToken" = Some token →
       jwt_verify L token (JWT_REFRESH_SECRET env) now = Js.Throw error →
       status_of (snd r) = Some 401
       ∧ (token ∈ refreshTokens st → token ∈ refreshTokens (fst r)))
  ∧ (∀ token decoded,
       cookies req !! "refreshToken" = Some token →
       jwt_verify L token (JWT_REFRESH_SECRET env) now = Js.Return decoded →
       find (λ u, String.eqb (id u) (Http.id decoded)) (users st) = None →
       status_of (snd r) = Some 401).
Proof.
  cbv zeta.
  pose proof (refresh_401_unchanged L env now st req) as Hsame.
  split; [exact Hsame | split; [| split; [| split]]].
  - intros Hc. unfold refresh. by rewrite Hc.
  - intros token Hc Hnot. by rewrite (refresh_unregistered _ _ _ _ _ _ Hc Hnot).
  - intros token error Hc Hv.
    assert (status_of (snd (refresh L env now st req)) = Some 401) as H401.
    { unfold refresh. rewrite Hc, Hv. by case_match. }
    split; [done |]. by rewrite (Hsame H401).
  - intros token decoded Hc Hv Hfind.
    unfold refresh. rewrite Hc, Hv, Hfind. by case_match.
Qed.

Lemma refresh_failure_leaves_registry_witness :
  let st := fst (login Reference.lib Reference.env Sample.t0 (initial Sample.loaded)
                   "admin@lumanagi.com" "demo123") in
  let req :=
    Sample.request_of "POST" {["refreshToken" := Sample.admin_refresh_token]} None in
  let late := Sample.t0 + 8 * 24 * 60 * 60 * 1000 in
  fst (refresh Reference.lib Reference.env late st req) = st
  ∧ Sample.admin_refresh_token
    ∈ refreshTokens (fst (refresh Reference.lib Reference.env late st req)).
Proof.
  cbv zeta.
  pose proof (refresh_failure_leaves_registry Reference.lib Reference.env
                (Sample.t0 + 8 * 24 * 60 * 60 * 1000)
                (fst (login Reference.lib Reference.env Sample.t0 (initial Sample.loaded)
                        "admin@lumanagi.com" "demo123"))
                (Sample.request_of "POST"
                   {["refreshToken" := Sample.admin_refresh_token]} None)) as H.
  cbv zeta in H. destruct H as (Hsame & _ & _ & Hexpired & _).
  split.
  - apply Hsame. vm_compute. reflexivity.
  - apply (Hexpired Sample.admin_refresh_token
             (Js.Err "TokenExpiredError" "jwt expired"));
      [reflexivity | vm_compute; reflexivity |].
    apply (bool_decide_unpack _). vm_compute. exact I.
Defined.

End AuthClaims.

(** ** Login rate limiting *)

Module RateLimiterFacts.
Import Http RateLimiter.

Lemma ceil_div_spec a b :
  0 < b → b * (ceil_div a b - 1) < a ≤ b * ceil_div a b.
Proof.
  intros Hb. unfold ceil_div.
  pose proof (Z.div_mod (- a) b ltac:(lia)) as Hdm.
  pose proof (Z.mod_pos_bound (- a) b Hb) as Hm.
  nia.
Qed.

Lemma counted_login statusCode :
  counted loginRateLimiter statusCode = true ↔ 400 ≤ statusCode.
Proof. unfold counted; cbn. apply Z.leb_le. Qed.

Lemma failures_cons t ts :
  failures (t :: ts) = (if failed t then 1 else 0) + failures ts.
Proof.
  unfold failures. rewrite filter_cons.
  destruct (failed t); case_decide; try done; cbn [length]; lia.
Qed.

(** A bucket that was written is the current one until its window ends. *)
Lemma current_live o (buckets : gmap string bucket) key b now :
  buckets !! key = Some b → now < reset b → current o buckets key now = b.
Proof.
  intros Hb Hlive. unfold current. rewrite Hb.
  by rewrite (proj2 (Z.ltb_lt _ _) Hlive).
Qed.

(** A first request, or one after the window has ended, starts a bucket
    at zero whose window ends [windowMs] later. *)
Lemma current_fresh o (buckets : gmap string bucket) key now :
  (buckets !! key = None ∨ ∃ b, buckets !! key = Some b ∧ reset b ≤ now) →
  current o buckets key now = {| count := 0; reset := now + windowMs o |}.
Proof.
  unfold current. intros [-> | (b & -> & Hb)]; [done |].
  by rewrite (proj2 (Z.ltb_ge _ _) Hb).
Qed.

Section Login.
Variable L : Env.lib.
Variable env : Env.process_env.

(** With the limit used up the handler answers 429 and the login handler
    does not run, whatever the credentials. *)
Lemma login_route_limited now buckets st req email password :
  let b := current loginRateLimiter buckets (keyGenerator req) now in
  5 ≤ count b →
  login_route L env now buckets st req email password
  = (<[keyGenerator req := {| count := count b + 1; reset := reset b |}]> buckets,
     st,
     rateLimitHandler
       {| limit := 5; used := count b + 1; remaining := 0; resetTime := reset b |}
       now).
Proof.
  intros b Hb. unfold login_route, rateLimit. fold b. cbn [max loginRateLimiter].
  rewrite (proj2 (Z.leb_le _ _) Hb).
  rewrite Z.max_r by lia. reflexivity.
Qed.

(** Below the limit the login handler runs and its answer is passed on. *)
Lemma login_route_admitted now buckets st req email password :
  let b := current loginRateLimiter buckets (keyGenerator req) now in
  count b < 5 →
  login_route L env now buckets st req email password
  = (<[keyGenerator req :=
         record loginRateLimiter b
           (default 200 (status_of (snd (Auth.login L env now st email password))))]>
       buckets,
     fst (Auth.login L env now st email password),
     Next :: snd (Auth.login L env now st email password)).
Proof.
  intros b Hb. unfold login_route, rateLimit. fold b. cbn [max loginRateLimiter].
  rewrite (proj2 (Z.leb_gt _ _) Hb).
  by destruct (Auth.login L env now st email password).
Qed.

(** One request moves the counter of its key by one exactly when its
    response failed. *)
Lemma login_route_bucket now buckets st req email password :
  let b := current loginRateLimiter buckets (keyGenerator req) now in
  let r := login_route L env now buckets st req email password in
  r.1.1 !! keyGenerator req
  = Some {| count := count b + (if failed r.2 then 1 else 0); reset := reset b |}.
Proof.
  intros b r. subst r.
  destruct (Z.le_gt_cases 5 (count b)) as [Hfull | Hroom].
  - rewrite (login_route_limited _ _ _ _ _ _ Hfull). cbn [fst snd].
    by rewrite lookup_insert_eq.
  - rewrite (login_route_admitted _ _ _ _ _ _ Hroom). cbn [fst snd].
    rewrite lookup_insert_eq. unfold record, counted, failed. cbn.
    subst b. destruct (400 <=? _); f_equal; f_equal; lia.
Qed.

(** Requests of other keys leave the bucket alone. *)
Lemma login_route_frame now buckets st req email password key :
  keyGenerator req ≠ key →
  (login_route L env now buckets st req email password).1.1 !! key
  = buckets !! key.
Proof.
  intros Hne. unfold login_route, rateLimit.
  destruct (max _ <=? _); [by cbn; rewrite lookup_insert_ne |].
  destruct (Auth.login L env now st email password).
  by cbn; rewrite lookup_insert_ne.
Qed.

(** Over a run of requests from one key inside one window the counter
    grows by the number of failed responses. *)
Lemma login_attempts_count key attempts :
  ∀ a buckets st,
    let b0 := current loginRateLimiter buckets key (at_time a) in
    Forall (λ x, keyGenerator (at_req x) = key ∧ at_time x < reset b0)
           (a :: attempts) →
    let r := login_attempts L env (a :: attempts) buckets st in
    r.1.1 !! key
    = Some {| count := count b0 + failures r.2; reset := reset b0 |}.
Proof.
  induction attempts as [| a2 rest IH]; intros a buckets st b0 Hall r; subst r.
  - apply Forall_cons in Hall as [[Hkey Ht] _].
    cbn [login_attempts].
    pose proof (login_route_bucket (at_time a) buckets st (at_req a)
                  (at_email a) (at_password a)) as Hstep.
    cbv zeta in Hstep. rewrite Hkey in Hstep. fold b0 in Hstep.
    destruct (login_route _ _ _ _ _ _ _ _) as [[buckets1 st1] t].
    cbn [fst snd] in *. rewrite Hstep, failures_cons.
    unfold failures at 1. cbn. by rewrite Z.add_0_r.
  - apply Forall_cons in Hall as [[Hkey Ht] Hrest].
    change (login_attempts L env (a :: a2 :: rest) buckets st)
      with (let '(buckets1, st1, t) :=
              login_route L env (at_time a) buckets st (at_req a)
                (at_email a) (at_password a) in
            let '(buckets2, st2, ts) :=
              login_attempts L env (a2 :: rest) buckets1 st1 in
            (buckets2, st2, t :: ts)).
    pose proof (login_route_bucket (at_time a) buckets st (at_req a)
                  (at_email a) (at_password a)) as Hstep.
    cbv zeta in Hstep. rewrite Hkey in Hstep. fold b0 in Hstep.
    destruct (login_route _ _ _ _ _ _ _ _) as [[buckets1 st1] t].
    cbn [fst snd] in Hstep.
    assert (at_time a2 < reset b0) as Ht2.
    { by apply Forall_cons in Hrest as [[_ ?] _]. }
    specialize (IH a2 buckets1 st1). cbv zeta in IH.
    rewrite (current_live _ _ _ _ _ Hstep Ht2) in IH. cbn [count reset] in IH.
    specialize (IH Hrest).
    destruct (login_attempts L env (a2 :: rest) buckets1 st1) as [[buckets2 st2] ts].
    cbn [fst snd] in *. rewrite IH, failures_cons. f_equal. f_equal. lia.
Qed.

End Login.

(** The six fields of the 429 body. *)
Lemma createRateLimitMessage_fields info now :
  let body := createRateLimitMessage info now in
  map fst body = ["error"; "message"; "retryAfter"; "limit"; "remaining"; "resetTime"]
  ∧ (∃ retryAfter,
       field "retryAfter" body = Some (Js.VNum retryAfter)
       ∧ 1000 * (retryAfter - 1) < resetTime info - now ≤ 1000 * retryAfter)
  ∧ field "limit" body = Some (Js.VNum (limit info))
  ∧ field "remaining" body = Some (Js.VNum (remaining info))
  ∧ field "resetTime" body = Some (Js.VDateISO (resetTime info)).
Proof.
  cbv zeta. repeat split; try reflexivity.
  eexists. split; [reflexivity |]. apply ceil_div_spec. lia.
Qed.

End RateLimiterFacts.

Module RateLimiterClaims.
Import Http RateLimiter RateLimiterFacts.

(** C8 — the login limiter has a window of 15 minutes, a maximum of 5 and
    counts failed responses only.  The first request of a key starts a
    bucket whose window ends 15 minutes later.  Over any run of requests
    from that key inside the window the counter is the number of responses
    with status 400 or more, so successful logins add nothing, and requests
    of other keys do not touch it; and once it
    has reached 5 the next request of the key inside the window is answered
    429 without running the login handler, whatever its credentials.  The
    429 body has [error], [message], [retryAfter] (the seconds until the
    window ends, rounded up), [limit], [remaining] and [resetTime] (the
    window end as an ISO timestamp).  The window is fixed: a bucket that is
    still open is the one the request finds, one whose window has ended is
    replaced by a fresh one.  As long as the counter is below 5 the next
    request of the key reaches the login handler and has its answer; and the
    first request of the key at or after the end of the window reaches the
    login handler whatever the counter had come to, and starts a new window
    of 15 minutes that counts from zero. *)
Theorem login_rate_limit
    (L : Env.lib) (env : Env.process_env) (key : string)
    (buckets : gmap string bucket) (st : Auth.state)
    (a : attempt) (attempts : list attempt) (a6 : attempt) :
  let o := loginRateLimiter in
  let b0 := current o buckets key (at_time a) in
  let r := login_attempts L env (a :: attempts) buckets st in
  let r6 := login_route L env (at_time a6) r.1.1 r.1.2 (at_req a6)
              (at_email a6) (at_password a6) in
  (windowMs o = 15 * 60 * 1000 ∧ max o = 5 ∧ skipSuccessfulRequests o = true
   ∧ ∀ statusCode, counted o statusCode = true ↔ 400 ≤ statusCode)
  ∧ (buckets !! key = None →
     b0 = {| count := 0; reset := at_time a + 15 * 60 * 1000 |})
  ∧ (keyGenerator (at_req a) ≠ key →
     (login_route L env (at_time a) buckets st (at_req a)
        (at_email a) (at_password a)).1.1 !! key = buckets !! key)
  ∧ (Forall (λ x, keyGenerator (at_req x) = key ∧ at_time x < reset b0)
            (a :: attempts ++ [a6]) →
     r.1.1 !! key = Some {| count := count b0 + failures r.2; reset := reset b0 |}
     ∧ (5 ≤ count b0 + failures r.2 →
        r6.1.2 = r.1.2
        ∧ denied_with 429 r6.2
        ∧ ∃ body retryAfter,
            body_of r6.2 = Some body
            ∧ map fst body
              = ["error"; "message"; "retryAfter"; "limit"; "remaining"; "resetTime"]
            ∧ field "retryAfter" body = Some (Js.VNum retryAfter)
            ∧ 1000 * (retryAfter - 1) < reset b0 - at_time a6 ≤ 1000 * retryAfter
            ∧ field "limit" body = Some (Js.VNum 5)
            ∧ field "remaining" body = Some (Js.VNum 0)
            ∧ field "resetTime" body = Some (Js.VDateISO (reset b0))))
  ∧ (∀ b, buckets !! key = Some b →
          (at_time a < reset b → b0 = b)
          ∧ (reset b ≤ at_time a →
             b0 = {| count := 0; reset := at_time a + 15 * 60 * 1000 |}))
  ∧ (Forall (λ x, keyGenerator (at_req x) = key ∧ at_time x < reset b0)
            (a :: attempts ++ [a6]) →
     count b0 + failures r.2 < 5 →
     r6.2 = Next :: snd (Auth.login L env (at_time a6) r.1.2
                           (at_email a6) (at_password a6))
     ∧ r6.1.2 = fst (Auth.login L env (at_time a6) r.1.2
                       (at_email a6) (at_password a6))
     ∧ r6.1.1 !! key
       = Some {| count := count b0 + failures r.2 + (if failed r6.2 then 1 else 0);
                 reset := reset b0 |})
  ∧ (Forall (λ x, keyGenerator (at_req x) = key ∧ at_time x < reset b0)
            (a :: attempts) →
     ∀ a7, keyGenerator (at_req a7) = key → reset b0 ≤ at_time a7 →
       let r7 := login_route L env (at_time a7) r.1.1 r.1.2 (at_req a7)
                   (at_email a7) (at_password a7) in
       r7.2 = Next :: snd (Auth.login L env (at_time a7) r.1.2
                             (at_email a7) (at_password a7))
       ∧ r7.1.2 = fst (Auth.login L env (at_time a7) r.1.2
                         (at_email a7) (at_password a7))
       ∧ r7.1.1 !! key
         = Some {| count := if failed r7.2 then 1 else 0;
                   reset := at_time a7 + 15 * 60 * 1000 |}).
Proof.
  intros o b0 r r6.
  split; [| split; [| split; [| split; [| split; [| split]]]]].
  - repeat split; try reflexivity; apply counted_login.
  - intros Hnone. subst b0. rewrite current_fresh by by left. reflexivity.
  - apply login_route_frame.
  - intros Hall.
    rewrite app_comm_cons in Hall.
    apply Forall_app in Hall as [Hrun H6].
    apply Forall_cons in H6 as [[Hkey6 Ht6] _].
    pose proof (login_attempts_count L env key attempts a buckets st Hrun) as Hcount.
    cbv zeta in Hcount. fold b0 r in Hcount.
    split; [exact Hcount |].
    intros Hfull.
    pose proof (current_live o _ _ _ _ Hcount Ht6) as Hcur.
    pose proof (login_route_limited L env (at_time a6) r.1.1 r.1.2 (at_req a6)
                  (at_email a6) (at_password a6)) as Hlim.
    cbv zeta in Hlim. rewrite Hkey6 in Hlim. fold o in Hlim.
    rewrite Hcur in Hlim. cbn [count reset] in Hlim.
    specialize (Hlim Hfull). fold r6 in Hlim. rewrite Hlim. cbn [fst snd].
    split; [reflexivity | split; [done |]].
    pose proof (createRateLimitMessage_fields
                  {| limit := 5; used := count b0 + failures r.2 + 1;
                     remaining := 0; resetTime := reset b0 |} (at_time a6))
      as (Hkeys & (retryAfter & Hretry & Hbound) & Hlimit & Hremaining & Hreset).
    eexists _, retryAfter. split; [reflexivity |].
    exact (conj Hkeys (conj Hretry (conj Hbound
             (conj Hlimit (conj Hremaining Hreset))))).
  - intros b Hb. split.
    + intros Hlive. subst b0. by apply current_live.
    + intros Hover. subst b0. rewrite current_fresh; [reflexivity |].
      right. by exists b.
  - intros Hall Hroom.
    rewrite app_comm_cons in Hall.
    apply Forall_app in Hall as [Hrun H6].
    apply Forall_cons in H6 as [[Hkey6 Ht6] _].
    pose proof (login_attempts_count L env key attempts a buckets st Hrun) as Hcount.
    cbv zeta in Hcount. fold b0 r in Hcount.
    pose proof (current_live o _ _ _ _ Hcount Ht6) as Hcur.
    pose proof (login_route_admitted L env (at_time a6) r.1.1 r.1.2 (at_req a6)
                  (at_email a6) (at_password a6)) as Hadm.
    pose proof (login_route_bucket L env (at_time a6) r.1.1 r.1.2 (at_req a6)
                  (at_email a6) (at_password a6)) as Hbucket.
    cbv zeta in Hadm, Hbucket. rewrite Hkey6 in Hadm, Hbucket.
    fold o in Hadm, Hbucket. rewrite Hcur in Hadm, Hbucket.
    cbn [count reset] in Hadm, Hbucket.
    specialize (Hadm Hroom). fold r6 in Hadm, Hbucket.
    split; [by rewrite Hadm | split; [by rewrite Hadm | exact Hbucket]].
  - intros Hrun a7 Hkey7 Hover r7.
    pose proof (login_attempts_count L env key attempts a buckets st Hrun) as Hcount.
    cbv zeta in Hcount. fold b0 r in Hcount.
    assert (current o r.1.1 key (at_time a7)
            = {| count := 0; reset := at_time a7 + 15 * 60 * 1000 |}) as Hcur.
    { rewrite current_fresh; [reflexivity |]. right. eexists. by split. }
    pose proof (login_route_admitted L env (at_time a7) r.1.1 r.1.2 (at_req a7)
                  (at_email a7) (at_password a7)) as Hadm.
    pose proof (login_route_bucket L env (at_time a7) r.1.1 r.1.2 (at_req a7)
                  (at_email a7) (at_password a7)) as Hbucket.
    cbv zeta in Hadm, Hbucket. rewrite Hkey7 in Hadm, Hbucket.
    fold o in Hadm, Hbucket. rewrite Hcur in Hadm, Hbucket.
    cbn [count reset] in Hadm, Hbucket.
    specialize (Hadm ltac:(lia)). fold r7 in Hadm, Hbucket.
    split; [by rewrite Hadm | split; [by rewrite Hadm |]].
    rewrite Hbucket. f_equal.
Qed.

Lemma login_rate_limit_witness :
  let run :=
    login_attempts Reference.lib Reference.env
      [ Sample.right_password Sample.t0;
        Sample.wrong_password (Sample.t0 + 1000);
        Sample.wrong_password (Sample.t0 + 2000);
        Sample.wrong_password (Sample.t0 + 3000);
        Sample.wrong_password (Sample.t0 + 4000);
        Sample.wrong_password (Sample.t0 + 5000) ] ∅ (Auth.initial Sample.loaded) in
  map status_of run.2
  = [Some 200; Some 401; Some 401; Some 401; Some 401; Some 401]
  ∧ denied_with 429
      (login_route Reference.lib Reference.env (Sample.t0 + 6000) run.1.1 run.1.2
         (Sample.request_of "POST" ∅ None) "admin@lumanagi.com" "demo123").2
  ∧ status_of
      (login_route Reference.lib Reference.env (Sample.t0 + 15 * 60 * 1000)
         run.1.1 run.1.2
         (Sample.request_of "POST" ∅ None) "admin@lumanagi.com" "demo123").2
    = Some 200.
Proof.
  cbv zeta. split; [vm_compute; reflexivity |].
  pose proof (login_rate_limit Reference.lib Reference.env "203.0.113.7" ∅
                (Auth.initial Sample.loaded) (Sample.right_password Sample.t0)
                [ Sample.wrong_password (Sample.t0 + 1000);
                  Sample.wrong_password (Sample.t0 + 2000);
                  Sample.wrong_password (Sample.t0 + 3000);
                  Sample.wrong_password (Sample.t0 + 4000);
                  Sample.wrong_password (Sample.t0 + 5000) ]
                (Sample.right_password (Sample.t0 + 6000))) as H.
  cbv zeta in H. destruct H as (_ & _ & _ & H & _ & _ & Hnew).
  split.
  - destruct H as [_ H].
    { repeat (constructor;
              [split; [vm_compute; reflexivity
                      | apply Z.ltb_lt; vm_compute; reflexivity] |]).
      constructor. }
    destruct H as (_ & H & _).
    { apply Z.leb_le. vm_compute. reflexivity. }
    exact H.
  - destruct (Hnew ltac:(repeat (constructor;
                          [split; [vm_compute; reflexivity
                                  | apply Z.ltb_lt; vm_compute; reflexivity] |]);
                         constructor)
                (Sample.right_password (Sample.t0 + 15 * 60 * 1000)))
      as (Htrace & _).
    + vm_compute. reflexivity.
    + apply Z.leb_le. vm_compute. reflexivity.
    + cbn [at_time at_req at_email at_password Sample.right_password] in Htrace.
      rewrite Htrace. vm_compute. reflexivity.
Defined.

End RateLimiterClaims.

(** ** More about the registry *)

Module RolesMoreFacts.
Import Roles RolesFacts RolesApi.

Lemma resource_table_checked :
  forallb
    (λ rp : string * gmap string (option string),
       forallb
         (λ ap : string * option string,
            match ap.2 with
            | None => true
            | Some p =>
                bool_decide (p ∈ Object_values PERMISSIONS)
                && String.eqb (action_part p) ap.1
            end)
         (map_to_list rp.2))
    (map_to_list RESOURCE_PERMISSIONS) = true.
Proof. vm_compute. reflexivity. Qed.

Lemma resource_entry_consistent
    (resource action p : string) (perms : gmap string (option string)) :
  RESOURCE_PERMISSIONS !! resource = Some perms →
  perms !! action = Some (Some p) →
  p ∈ Object_values PERMISSIONS ∧ action_part p = action.
Proof.
  intros Hr%elem_of_map_to_list%list_elem_of_In
         Ha%elem_of_map_to_list%list_elem_of_In.
  pose proof resource_table_checked as Hall.
  rewrite forallb_forall in Hall. specialize (Hall _ Hr). cbn [snd] in Hall.
  rewrite forallb_forall in Hall. specialize (Hall _ Ha). cbn [fst snd] in Hall.
  apply andb_true_iff in Hall as [Hin Heq].
  split; [by apply bool_decide_eq_true in Hin | by apply String.eqb_eq].
Qed.

End RolesMoreFacts.

Module RolesExtra.
Import Roles RolesFacts RolesApi RolesMoreFacts.

(** X1 — on the enumerated roles [hasRoleLevel] is a total order: reflexive,
    transitive, total and antisymmetric (no two roles share a level). *)
Theorem hasRoleLevel_total_order :
  (∀ a, isValidRole a = true → hasRoleLevel a a = true)
  ∧ (∀ a b c,
       isValidRole a = true → isValidRole b = true → isValidRole c = true →
       hasRoleLevel a b = true → hasRoleLevel b c = true →
       hasRoleLevel a c = true)
  ∧ (∀ a b,
       isValidRole a = true → isValidRole b = true →
       hasRoleLevel a b = true ∨ hasRoleLevel b a = true)
  ∧ (∀ a b,
       isValidRole a = true → isValidRole b = true →
       hasRoleLevel a b = true → hasRoleLevel b a = true → a = b).
Proof.
  split; [| split; [| split]].
  - intros a [-> | [-> | ->]]%isValidRole_iff; reflexivity.
  - intros a b c [-> | [-> | ->]]%isValidRole_iff
      [-> | [-> | ->]]%isValidRole_iff [-> | [-> | ->]]%isValidRole_iff Hab Hbc;
      vm_compute in Hab, Hbc |- *; congruence.
  - intros a b [-> | [-> | ->]]%isValidRole_iff [-> | [-> | ->]]%isValidRole_iff;
      vm_compute; auto.
  - intros a b [-> | [-> | ->]]%isValidRole_iff [-> | [-> | ->]]%isValidRole_iff
      Hab Hba; vm_compute in Hab, Hba; congruence.
Qed.

Lemma hasRoleLevel_total_order_witness :
  hasRoleLevel "admin" "viewer" = true.
Proof.
  apply (proj1 (proj2 hasRoleLevel_total_order) "admin" "user" "viewer");
    reflexivity.
Defined.

(** X2 — for every string, [isValidRole] holds exactly when [getRoleLevel]
    returns a number that is at least 1; every other string gets 0 or an
    inherited builtin. *)
Theorem isValidRole_iff_positive_level (role : string) :
  isValidRole role = true ↔ ∃ n, getRoleLevel role = Num n ∧ 1 ≤ n.
Proof.
  split.
  - intros (n & Hn & Hrange)%getRoleLevel_valid. exists n. split; [done | lia].
  - intros (n & Hn & Hpos).
    destruct (isValidRole role) eqn:Hvalid; [done |].
    unfold getRoleLevel, Js.get in Hn. rewrite (levels_unknown _ Hvalid) in Hn.
    case_bool_decide; [discriminate Hn |]. injection Hn as <-. lia.
Qed.

(** X3 — [hasPermission] and [getRolePermissions] agree on every role
    string: [hasPermission] returns [true] exactly when [getRolePermissions]
    returns a [Set] that holds the permission, and it throws exactly when
    [getRolePermissions] returns something that is not a [Set]. *)
Theorem hasPermission_agrees_with_getRolePermissions (role p : string) :
  (hasPermission role p = Js.Return true ↔
   ∃ s, getRolePermissions role = PermissionSet s ∧ p ∈ s)
  ∧ ((∃ e, hasPermission role p = Js.Throw e) ↔
     ∃ k, getRolePermissions role = NotASet k).
Proof.
  unfold hasPermission, getRolePermissions.
  destruct (Js.get ROLE_PERMISSIONS role) as [s | k |]; cbn [Set_has].
  - split; split.
    + intros [= H%bool_decide_eq_true]. eauto.
    + intros (s' & [= <-] & Hin). by rewrite bool_decide_eq_true_2.
    + intros [e [=]].
    + intros [k [=]].
  - split; split.
    + intros [=].
    + intros (s' & [=] & _).
    + eauto.
    + eauto.
  - split; split.
    + intros [=].
    + intros (s' & [= <-] & Hin). by apply not_elem_of_empty in Hin.
    + intros [e [=]].
    + intros [k [=]].
Qed.

(** X4 — the Resource-Action Map is wired consistently: every permission it
    names is one of the values of [PERMISSIONS], and the permission mapped to
    an action is a permission for that very action (nothing maps, say,
    [update] to a [delete] permission). *)
Theorem resource_permissions_consistent
    (resource action p : string) (perms : gmap string (option string)) :
  RESOURCE_PERMISSIONS !! resource = Some perms →
  perms !! action = Some (Some p) →
  p ∈ Object_values PERMISSIONS ∧ action_part p = action.
Proof. apply resource_entry_consistent. Qed.

Lemma resource_permissions_consistent_witness :
  "risks:update" ∈ Object_values PERMISSIONS
  ∧ action_part "risks:update" = "update".
Proof.
  apply (resource_permissions_consistent "risk-assessments" "update" "risks:update"
           (crud (Some "risks:create") (Some "risks:read")
                 (Some "risks:update") (Some "risks:delete")));
    reflexivity.
Defined.

End RolesExtra.

(** ** More about the authorization gates *)

Module GatesFacts.
Import Http Roles RolesFacts RolesApi RolesMoreFacts Authorize AuthorizeFacts Gates.

Lemma admin_holds_all (p : string) :
  p ∈ Object_values PERMISSIONS → hasPermission "admin" p = Js.Return true.
Proof.
  intros Hp. rewrite hasPermission_known_role by reflexivity.
  f_equal. apply bool_decide_eq_true.
  change (granted "admin") with (list_to_set admin_permissions : gset string).
  by apply elem_of_list_to_set.
Qed.

(** A string permission returned by [getResourcePermission] is an entry of
    the table. *)
Lemma getResourcePermission_string builtin_member resource key (p : string) :
  getResourcePermission builtin_member resource key = Some (Js.VStr p) →
  ∃ perms, RESOURCE_PERMISSIONS !! resource = Some perms
           ∧ perms !! key = Some (Some p).
Proof.
  unfold getResourcePermission, Js.get.
  destruct (RESOURCE_PERMISSIONS !! resource) as [perms|] eqn:Hr.
  - destruct (perms !! key) as [[q|]|] eqn:Hk.
    + destruct (Js.truthy_string q); [| done]. intros [= ->]. eauto.
    + done.
    + by case_bool_decide.
  - case_bool_decide; [| done]. by destruct (builtin_member resource key).
Qed.

Lemma methodToAction_own m action :
  Js.get methodToAction m = Js.Own action →
  (m, action) ∈ [ ("GET", "read"); ("POST", "create"); ("PUT", "update");
                  ("PATCH", "update"); ("DELETE", "delete") ].
Proof.
  unfold Js.get.
  destruct (methodToAction !! m) as [a|] eqn:Hm; [| by case_bool_decide].
  intros [= ->]. unfold methodToAction in Hm.
  repeat (apply lookup_insert_Some in Hm as [[<- <-] | [_ Hm]];
          [apply (bool_decide_unpack _); vm_compute; exact I |]).
  by apply lookup_empty_Some in Hm.
Qed.

Lemma action_of_permission (p : string) :
  p ∈ Object_values PERMISSIONS →
  action_part p ∈ ["create"; "read"; "update"; "delete"].
Proof.
  intros Hp. cbn in Hp.
  repeat (apply elem_of_cons in Hp as [-> | Hp];
          [apply (bool_decide_unpack _); vm_compute; exact I |]).
  by apply elem_of_nil in Hp.
Qed.

Lemma builtin_is_no_action k :
  Js.builtin_to_string k ∉ ["create"; "read"; "update"; "delete"].
Proof.
  unfold Js.builtin_to_string. intros H.
  destruct (String.eqb k "__proto__"), (String.eqb k "constructor");
    cbn in H;
    repeat (apply elem_of_cons in H as [H | H]; [discriminate H |]);
    by apply elem_of_nil in H.
Qed.

(** What it takes for [requireResourceAccess] to pass. *)
Lemma requireResourceAccess_passes builtin_member resource req :
  continues (requireResourceAccess builtin_member resource req) = true →
  ∃ u action (p : string),
    user req = Some u
    ∧ isValidRole (role u) = true
    ∧ (method req, action) ∈ [ ("GET", "read"); ("POST", "create");
                               ("PUT", "update"); ("PATCH", "update");
                               ("DELETE", "delete") ]
    ∧ getResourcePermission builtin_member resource action = Some (Js.VStr p)
    ∧ p ∈ Object_values PERMISSIONS
    ∧ action_part p = action
    ∧ p ∈ granted (role u).
Proof.
  unfold requireResourceAccess.
  destruct (user req) as [u|] eqn:Hu; [| done]. cbv zeta.
  rewrite role_rejected_valid.
  destruct (isValidRole (role u)) eqn:Hrole; [| done]. cbn [negb].
  assert (∀ key,
    continues (check_resource builtin_member resource (role u) key) = true →
    ∃ p : string,
      getResourcePermission builtin_member resource key = Some (Js.VStr p)
      ∧ p ∈ Object_values PERMISSIONS ∧ action_part p = key
      ∧ p ∈ granted (role u)) as Hcheck.
  { intros key. unfold check_resource.
    destruct (getResourcePermission builtin_member resource key) as [v|] eqn:Hg;
      [| done].
    rewrite (hasPermission_valid _ _ Hrole).
    destruct v as [p | | | |]; try done. cbn [Set_has].
    case_bool_decide as Hin; [| done]. intros _.
    destruct (getResourcePermission_string _ _ _ _ Hg) as (perms & Hr & Hk).
    destruct (resource_entry_consistent _ _ _ _ Hr Hk) as [Hp Ha].
    by exists p. }
  destruct (Js.get methodToAction (method req)) as [action | k |] eqn:Hm; [| | done].
  - intros (p & Hg & Hp & Ha & Hin)%Hcheck.
    exists u, action, p. repeat split; try done. by apply methodToAction_own.
  - intros (p & Hg & Hp & Ha & Hin)%Hcheck.
    destruct (builtin_is_no_action k). rewrite <- Ha. by apply action_of_permission.
Qed.

Lemma below_admin_no_delete role (p : string) :
  isValidRole role = true → role ≠ "admin" →
  p ∈ granted role → action_part p ≠ "delete".
Proof.
  intros [-> | [-> | ->]]%isValidRole_iff Hne Hin; [by destruct Hne | |].
  - change (granted "user") with (list_to_set user_permissions : gset string) in Hin.
    apply elem_of_list_to_set in Hin. unfold user_permissions in Hin.
    repeat (apply elem_of_cons in Hin as [-> | Hin]; [discriminate |]).
    by apply elem_of_nil in Hin.
  - change (granted "viewer") with (list_to_set viewer_permissions : gset string) in Hin.
    apply elem_of_list_to_set in Hin. unfold viewer_permissions in Hin.
    repeat (apply elem_of_cons in Hin as [-> | Hin]; [discriminate |]).
    by apply elem_of_nil in Hin.
Qed.

Lemma viewer_reads_only (p : string) :
  p ∈ granted "viewer" → action_part p = "read".
Proof.
  intros Hin.
  change (granted "viewer") with (list_to_set viewer_permissions : gset string) in Hin.
  apply elem_of_list_to_set in Hin. unfold viewer_permissions in Hin.
  repeat (apply elem_of_cons in Hin as [-> | Hin]; [reflexivity |]).
  by apply elem_of_nil in Hin.
Qed.

(** [every] and [some] over the permissions of an enumerated role. *)
Lemma every_permission_valid role permissions :
  isValidRole role = true →
  every_permission role permissions
  = Js.Return (bool_decide (Forall (λ p, p ∈ granted role) permissions)).
Proof.
  intros Hrole. induction permissions as [| p ps IH].
  - reflexivity.
  - cbn [every_permission]. rewrite (hasPermission_known_role _ _ Hrole).
    destruct (decide (p ∈ granted role)) as [Hp | Hp].
    + rewrite (bool_decide_eq_true_2 _ Hp), IH. f_equal.
      apply bool_decide_ext. rewrite Forall_cons. tauto.
    + rewrite (bool_decide_eq_false_2 _ Hp). f_equal. symmetry.
      apply bool_decide_eq_false. rewrite Forall_cons. tauto.
Qed.

Lemma some_permission_valid role permissions :
  isValidRole role = true →
  some_permission role permissions
  = Js.Return (bool_decide (Exists (λ p, p ∈ granted role) permissions)).
Proof.
  intros Hrole. induction permissions as [| p ps IH].
  - reflexivity.
  - cbn [some_permission]. rewrite (hasPermission_known_role _ _ Hrole).
    destruct (decide (p ∈ granted role)) as [Hp | Hp].
    + rewrite (bool_decide_eq_true_2 _ Hp). f_equal. symmetry.
      apply bool_decide_eq_true. rewrite Exists_cons. tauto.
    + rewrite (bool_decide_eq_false_2 _ Hp), IH. f_equal.
      apply bool_decide_ext. rewrite Exists_cons. tauto.
Qed.

Lemma requireRole_passes allowedRoles req :
  passes (requireRole allowedRoles req) = true ↔
  ∃ u, user req = Some u ∧ isValidRole (role u) = true
       ∧ role u ∈ to_array allowedRoles.
Proof.
  unfold requireRole. destruct (user req) as [u|]; [| by split; [| intros (? & ? & _)]].
  cbv zeta. rewrite role_rejected_valid.
  destruct (isValidRole (role u)) eqn:Hrole; cbn [negb].
  - case_bool_decide as Hin; cbn [negb].
    + split; [intros _; by exists u | done].
    + split; [done | intros (u' & [= <-] & _ & Hin'); done].
  - split; [done | intros (u' & [= <-] & Hrole' & _); congruence].
Qed.

Lemma requirePermission_passes requiredPermissions req :
  passes (requirePermission requiredPermissions req) = true ↔
  ∃ u, user req = Some u ∧ isValidRole (role u) = true
       ∧ Forall (λ p, p ∈ granted (role u)) (to_array requiredPermissions).
Proof.
  unfold requirePermission.
  destruct (user req) as [u|]; [| by split; [| intros (? & ? & _)]].
  cbv zeta. rewrite role_rejected_valid.
  destruct (isValidRole (role u)) eqn:Hrole; cbn [negb].
  - rewrite (every_permission_valid _ _ Hrole).
    case_bool_decide as Hall; cbn [negb].
    + split; [intros _; by exists u | done].
    + split; [done | intros (u' & [= <-] & _ & Hall'); done].
  - split; [done | intros (u' & [= <-] & Hrole' & _); congruence].
Qed.

Lemma requireAnyPermission_passes requiredPermissions req :
  passes (requireAnyPermission requiredPermissions req) = true ↔
  ∃ u, user req = Some u ∧ isValidRole (role u) = true
       ∧ Exists (λ p, p ∈ granted (role u)) requiredPermissions.
Proof.
  unfold requireAnyPermission.
  destruct (user req) as [u|]; [| by split; [| intros (? & ? & _)]].
  cbv zeta. rewrite role_rejected_valid.
  destruct (isValidRole (role u)) eqn:Hrole; cbn [negb].
  - rewrite (some_permission_valid _ _ Hrole).
    case_bool_decide as Hany; cbn [negb].
    + split; [intros _; by exists u | done].
    + split; [done | intros (u' & [= <-] & _ & Hany'); done].
  - split; [done | intros (u' & [= <-] & Hrole' & _); congruence].
Qed.

Lemma passes_lift t : passes (lift t) = continues t.
Proof.
  unfold passes, continues, lift. induction t as [| e t IH]; [done |].
  cbn. rewrite IH. by destruct e.
Qed.

Lemma passes_flat_map (f : effect → trace) t rest :
  (∀ e, f e = if calls_next e then rest else [e]) →
  passes (flat_map f t) = passes t && passes rest.
Proof.
  intros Hf. unfold passes. induction t as [| e t IH]; [done |].
  cbn [flat_map existsb]. rewrite existsb_app, IH, Hf.
  destruct (calls_next e) eqn:He; cbn.
  - by destruct (existsb calls_next rest), (existsb calls_next t).
  - by rewrite He.
Qed.

Lemma flat_map_no_next (f : effect → trace) t rest :
  (∀ e, f e = if calls_next e then rest else [e]) →
  passes t = false → flat_map f t = t.
Proof.
  intros Hf. unfold passes. induction t as [| e t IH]; [done |].
  cbn [flat_map existsb]. intros [He Ht]%orb_false_iff.
  by rewrite Hf, He, IH.
Qed.

End GatesFacts.

Module GatesExtra.
Import Http Roles RolesFacts RolesApi RolesMoreFacts Authorize AuthorizeFacts.
Import Gates GatesFacts.

(** X5 — for an admin, [requireResourceAccess] passes on GET, POST, PUT, PATCH
    or DELETE exactly when the Resource-Action Map names a permission for
    the resource and action: only the map, never the role, stands between an
    admin and a resource. *)
Theorem admin_denied_only_by_the_map
    (builtin_member : string → string → bool) (resource : string)
    (req : request) (u : identity) (verb action : string) :
  user req = Some u → role u = "admin" →
  (verb, action) ∈ [ ("GET", "read"); ("POST", "create"); ("PUT", "update");
                     ("PATCH", "update"); ("DELETE", "delete") ] →
  method req = verb →
  continues (requireResourceAccess builtin_member resource req) = true ↔
  ∃ p : string,
    getResourcePermission builtin_member resource action = Some (Js.VStr p).
Proof.
  intros Hu Hadmin Htable <-. apply methodToAction_table in Htable. split.
  - intros (u' & action' & p & Hu' & _ & Htable' & Hg & _)%requireResourceAccess_passes.
    apply methodToAction_table in Htable'. rewrite Htable in Htable'.
    injection Htable' as <-. eauto.
  - intros [p Hg].
    assert (isValidRole (role u) = true) as Hrole by by rewrite Hadmin.
    rewrite (requireResourceAccess_valid _ _ _ _ _ Hu Hrole Htable).
    apply (check_resource_decides builtin_member resource (role u) action Hrole).
    exists (Js.VStr p). split; [done |]. rewrite Hadmin.
    destruct (getResourcePermission_string _ _ _ _ Hg) as (perms & Hr & Hk).
    apply admin_holds_all. by apply (resource_entry_consistent _ _ _ _ Hr Hk).
Qed.

Lemma admin_denied_only_by_the_map_witness :
  continues
    (requireResourceAccess Sample.builtin_member "audit-logs"
       (Sample.request_of "GET" ∅ (Some Sample.admin))) = true.
Proof.
  apply (admin_denied_only_by_the_map Sample.builtin_member "audit-logs"
           (Sample.request_of "GET" ∅ (Some Sample.admin)) Sample.admin
           "GET" "read");
    [reflexivity | reflexivity | | reflexivity |].
  - apply (bool_decide_unpack _). vm_compute. exact I.
  - exists "audit-logs:read". reflexivity.
Defined.

(** X6 — whatever the resource name, a DELETE request passes
    [requireResourceAccess] only for an admin: neither the user nor the
    viewer role holds a permission the map asks for on [delete]. *)
Theorem only_admin_deletes
    (builtin_member : string → string → bool) (resource : string)
    (req : request) (u : identity) :
  user req = Some u → method req = "DELETE" →
  continues (requireResourceAccess builtin_member resource req) = true →
  role u = "admin".
Proof.
  intros Hu Hm
    (u' & action & p & Hu' & Hrole & Htable & _ & _ & Ha & Hin)%requireResourceAccess_passes.
  rewrite Hu in Hu'. injection Hu' as <-.
  rewrite Hm in Htable. apply methodToAction_table in Htable.
  injection Htable as <-.
  destruct (decide (role u = "admin")) as [| Hne]; [done |].
  by destruct (below_admin_no_delete _ _ Hrole Hne Hin).
Qed.

Lemma only_admin_deletes_witness :
  Http.role Sample.admin = "admin".
Proof.
  apply (only_admin_deletes Sample.builtin_member "alerts"
           (Sample.request_of "DELETE" ∅ (Some Sample.admin)) Sample.admin);
    reflexivity.
Defined.

(** X7 — whatever the resource name, a viewer passes [requireResourceAccess]
    only with GET: every permission of the viewer role is a [read]
    permission and the map asks for a permission of the action at hand. *)
Theorem viewer_only_reads
    (builtin_member : string → string → bool) (resource : string)
    (req : request) (u : identity) :
  user req = Some u → role u = "viewer" →
  continues (requireResourceAccess builtin_member resource req) = true →
  method req = "GET".
Proof.
  intros Hu Hviewer
    (u' & action & p & Hu' & Hrole & Htable & _ & _ & Ha & Hin)%requireResourceAccess_passes.
  rewrite Hu in Hu'. injection Hu' as <-. rewrite Hviewer in Hin.
  apply viewer_reads_only in Hin. rewrite Hin in Ha. subst action.
  apply elem_of_cons in Htable as [Heq | Htable]; [by injection Heq |].
  repeat (apply elem_of_cons in Htable as [Heq | Htable]; [discriminate Heq |]).
  by apply elem_of_nil in Htable.
Qed.

Lemma viewer_only_reads_witness :
  method (Sample.request_of "GET" ∅ (Some Sample.viewer)) = "GET".
Proof.
  apply (viewer_only_reads Sample.builtin_member "contract-metrics"
           (Sample.request_of "GET" ∅ (Some Sample.viewer)) Sample.viewer);
    reflexivity.
Defined.

(** X8 — [requireRole] passes exactly when the identity's role is enumerated
    and is one of the allowed roles; without an identity it answers 401,
    otherwise 403.  So an allowed list that names no enumerated role (the
    empty list included) lets nobody through. *)
Theorem requireRole_contract (allowedRoles : one_or_many) (req : request) :
  (passes (requireRole allowedRoles req) = true ↔
   ∃ u, user req = Some u ∧ isValidRole (role u) = true
        ∧ role u ∈ to_array allowedRoles)
  ∧ (user req = None → status (requireRole allowedRoles req) = Some 401)
  ∧ (∀ u, user req = Some u → passes (requireRole allowedRoles req) = false →
          status (requireRole allowedRoles req) = Some 403)
  ∧ (Forall (λ r, isValidRole r = false) (to_array allowedRoles) →
     passes (requireRole allowedRoles req) = false).
Proof.
  split; [apply requireRole_passes | split; [| split]].
  - intros Hu. unfold requireRole. by rewrite Hu.
  - intros u Hu. unfold requireRole. rewrite Hu. cbv zeta.
    destruct (role_rejected (role u)); [done |].
    by case_bool_decide.
  - intros Hnone. apply not_true_is_false.
    intros (u & _ & Hrole & Hin)%requireRole_passes.
    rewrite Forall_forall in Hnone. specialize (Hnone _ Hin). congruence.
Qed.

Lemma requireRole_contract_witness :
  status (requireRole (Many ["admin"; "user"])
            (Sample.request_of "POST" ∅ (Some Sample.viewer))) = Some 403
  ∧ passes (requireRole (One "superadmin")
              (Sample.request_of "POST" ∅ (Some Sample.admin))) = false.
Proof.
  split.
  - apply (proj1 (proj2 (proj2 (requireRole_contract _ _))) Sample.viewer);
      reflexivity.
  - apply (proj2 (proj2 (proj2 (requireRole_contract _ _)))).
    repeat constructor.
Defined.

(** X9 — [requirePermission] has AND semantics: it passes exactly when the
    identity's role is enumerated and holds every listed permission, and
    otherwise answers 401 (no identity) or 403.  With an empty list it
    passes every enumerated role. *)
Theorem requirePermission_all_of
    (requiredPermissions : one_or_many) (req : request) :
  (passes (requirePermission requiredPermissions req) = true ↔
   ∃ u, user req = Some u ∧ isValidRole (role u) = true
        ∧ Forall (λ p, hasPermission (role u) (Js.VStr p) = Js.Return true)
                 (to_array requiredPermissions))
  ∧ (user req = None →
     status (requirePermission requiredPermissions req) = Some 401)
  ∧ (∀ u, user req = Some u →
          passes (requirePermission requiredPermissions req) = false →
          status (requirePermission requiredPermissions req) = Some 403)
  ∧ (∀ u, user req = Some u → isValidRole (role u) = true →
          passes (requirePermission (Many []) req) = true).
Proof.
  split; [| split; [| split]].
  - rewrite requirePermission_passes. split.
    + intros (u & Hu & Hrole & Hall). exists u. repeat split; try done.
      eapply Forall_impl; [exact Hall |]. intros p Hp. cbn beta in *.
      rewrite (hasPermission_known_role _ _ Hrole). f_equal.
      by apply bool_decide_eq_true.
    + intros (u & Hu & Hrole & Hall). exists u. repeat split; try done.
      eapply Forall_impl; [exact Hall |]. intros p Hp. cbn beta in *.
      rewrite (hasPermission_known_role _ _ Hrole) in Hp.
      injection Hp as Hp. by apply bool_decide_eq_true in Hp.
  - intros Hu. unfold requirePermission. by rewrite Hu.
  - intros u Hu. unfold requirePermission. rewrite Hu. cbv zeta.
    rewrite role_rejected_valid.
    destruct (isValidRole (role u)) eqn:Hrole; [| done]. cbn [negb].
    rewrite (every_permission_valid _ _ Hrole). by case_bool_decide.
  - intros u Hu Hrole. apply requirePermission_passes.
    exists u. split; [done | split; [done | constructor]].
Qed.

Lemma requirePermission_all_of_witness :
  status (requirePermission (Many ["contracts:read"; "contracts:delete"])
            (Sample.request_of "POST" ∅ (Some Sample.regular))) = Some 403
  ∧ passes (requirePermission (Many [])
              (Sample.request_of "POST" ∅ (Some Sample.viewer))) = true.
Proof.
  split.
  - apply (proj1 (proj2 (proj2
             (requirePermission_all_of
                (Many ["contracts:read"; "contracts:delete"])
                (Sample.request_of "POST" ∅ (Some Sample.regular)))))
             Sample.regular);
      reflexivity.
  - apply (proj2 (proj2 (proj2
             (requirePermission_all_of (Many [])
                (Sample.request_of "POST" ∅ (Some Sample.viewer)))))
             Sample.viewer);
      reflexivity.
Defined.

(** X10 — [requireAnyPermission] has OR semantics: it passes exactly when
    the identity's role is enumerated and holds at least one listed
    permission, and otherwise answers 401 (no identity) or 403.  With an
    empty list it passes nobody. *)
Theorem requireAnyPermission_one_of
    (requiredPermissions : list string) (req : request) :
  (passes (requireAnyPermission requiredPermissions req) = true ↔
   ∃ u, user req = Some u ∧ isValidRole (role u) = true
        ∧ Exists (λ p, hasPermission (role u) (Js.VStr p) = Js.Return true)
                 requiredPermissions)
  ∧ (user req = None →
     status (requireAnyPermission requiredPermissions req) = Some 401)
  ∧ (∀ u, user req = Some u →
          passes (requireAnyPermission requiredPermissions req) = false →
          status (requireAnyPermission requiredPermissions req) = Some 403)
  ∧ passes (requireAnyPermission [] req) = false.
Proof.
  split; [| split; [| split]].
  - rewrite requireAnyPermission_passes. split.
    + intros (u & Hu & Hrole & Hany). exists u. repeat split; try done.
      eapply Exists_impl; [exact Hany |]. intros p Hp. cbn beta in *.
      rewrite (hasPermission_known_role _ _ Hrole). f_equal.
      by apply bool_decide_eq_true.
    + intros (u & Hu & Hrole & Hany). exists u. repeat split; try done.
      eapply Exists_impl; [exact Hany |]. intros p Hp. cbn beta in *.
      rewrite (hasPermission_known_role _ _ Hrole) in Hp.
      injection Hp as Hp. by apply bool_decide_eq_true in Hp.
  - intros Hu. unfold requireAnyPermission. by rewrite Hu.
  - intros u Hu. unfold requireAnyPermission. rewrite Hu. cbv zeta.
    rewrite role_rejected_valid.
    destruct (isValidRole (role u)) eqn:Hrole; [| done]. cbn [negb].
    rewrite (some_permission_valid _ _ Hrole). by case_bool_decide.
  - apply not_true_is_false.
    intros (u & _ & _ & Hany)%requireAnyPermission_passes.
    by apply Exists_nil in Hany.
Qed.

Lemma requireAnyPermission_one_of_witness :
  status (requireAnyPermission ["users:read"; "users:update"]
            (Sample.request_of "GET" ∅ (Some Sample.regular))) = Some 403.
Proof.
  apply (proj1 (proj2 (proj2
           (requireAnyPermission_one_of ["users:read"; "users:update"]
              (Sample.request_of "GET" ∅ (Some Sample.regular)))))
           Sample.regular);
    reflexivity.
Defined.

(** X11 — the two permission gates compared: on one permission they do
    exactly the same, and whoever passes [requirePermission] on a non-empty
    list passes [requireAnyPermission] on it. *)
Theorem all_of_implies_one_of (req : request) :
  (∀ p, requireAnyPermission [p] req = requirePermission (One p) req)
  ∧ (∀ permissions,
       permissions ≠ [] →
       passes (requirePermission (Many permissions) req) = true →
       passes (requireAnyPermission permissions req) = true).
Proof.
  split.
  - intros p. unfold requireAnyPermission, requirePermission.
    destruct (user req) as [u|]; [| done]. cbv zeta.
    destruct (role_rejected (role u)); [done |].
    cbn [to_array some_permission every_permission].
    by destruct (hasPermission (role u) (Js.VStr p)) as [[|]|].
  - intros permissions Hne (u & Hu & Hrole & Hall)%requirePermission_passes.
    apply requireAnyPermission_passes. exists u. repeat split; try done.
    destruct permissions as [| p ps]; [done |].
    apply Forall_cons in Hall as [Hp _]. by apply Exists_cons_hd.
Qed.

Lemma all_of_implies_one_of_witness :
  passes (requireAnyPermission ["risks:read"; "risks:update"]
            (Sample.request_of "PUT" ∅ (Some Sample.regular))) = true.
Proof.
  apply (proj2 (all_of_implies_one_of _)); [discriminate | reflexivity].
Defined.

End GatesExtra.

Module GatesCompose.
Import Http Roles RolesFacts RolesApi RolesMoreFacts Authorize AuthorizeFacts.
Import Gates GatesFacts.

(** X12 — the gates respect the hierarchy: whatever request an identity
    passes [requirePermission], [requireAnyPermission], [requireRoleLevel] or
    [requireResourceAccess] with, the same request passes with any identity
    whose enumerated role is at least as high. *)
Theorem gates_monotone_in_role (req : request) (higher lower : identity) :
  isValidRole (role higher) = true → isValidRole (role lower) = true →
  hasRoleLevel (role higher) (role lower) = true →
  (∀ ps, passes (requirePermission ps (set_user req lower)) = true →
         passes (requirePermission ps (set_user req higher)) = true)
  ∧ (∀ ps, passes (requireAnyPermission ps (set_user req lower)) = true →
           passes (requireAnyPermission ps (set_user req higher)) = true)
  ∧ (∀ minimumRole,
       continues (requireRoleLevel minimumRole (set_user req lower)) = true →
       continues (requireRoleLevel minimumRole (set_user req higher)) = true)
  ∧ (∀ builtin_member resource,
       continues (requireResourceAccess builtin_member resource
                    (set_user req lower)) = true →
       continues (requireResourceAccess builtin_member resource
                    (set_user req higher)) = true).
Proof.
  intros Hhigh Hlow Hlevel.
  pose proof (granted_monotone _ _ Hhigh Hlow Hlevel) as Hsub.
  split; [| split; [| split]].
  - intros ps (u & [= <-] & _ & Hall)%requirePermission_passes.
    apply requirePermission_passes. exists higher. repeat split; try done.
    eapply Forall_impl; [exact Hall |]. intros p Hp. by apply Hsub.
  - intros ps (u & [= <-] & _ & Hany)%requireAnyPermission_passes.
    apply requireAnyPermission_passes. exists higher. repeat split; try done.
    eapply Exists_impl; [exact Hany |]. intros p Hp. by apply Hsub.
  - intros minimumRole. unfold requireRoleLevel. cbn [user set_user]. cbv zeta.
    rewrite !role_rejected_valid, Hhigh, Hlow. cbn [negb].
    destruct (hasRoleLevel (role lower) minimumRole) eqn:Hmin; [| done].
    intros _.
    destruct (getRoleLevel_valid _ Hhigh) as (h & Hh & _).
    destruct (getRoleLevel_valid _ Hlow) as (l & Hl & _).
    unfold hasRoleLevel in *. rewrite Hh in *. rewrite Hl in *.
    destruct (getRoleLevel minimumRole) as [m | k]; [| done].
    cbn [js_ge] in *.
    assert ((h >=? m) = true) as -> by (rewrite Z.geb_leb in *; lia).
    done.
  - intros builtin_member resource
      (u & action & p & [= <-] & _ & Htable & Hg & _ & _ & Hin)%requireResourceAccess_passes.
    cbn [method set_user] in Htable. apply methodToAction_table in Htable.
    rewrite (requireResourceAccess_valid builtin_member resource
               (set_user req higher) higher action eq_refl Hhigh Htable).
    apply (check_resource_decides builtin_member resource (role higher) action Hhigh).
    exists (Js.VStr p). split; [done |].
    rewrite (hasPermission_known_role _ _ Hhigh). f_equal.
    apply bool_decide_eq_true. by apply Hsub.
Qed.

Lemma gates_monotone_in_role_witness :
  continues
    (requireResourceAccess Sample.builtin_member "alerts"
       (set_user (Sample.request_of "GET" ∅ None) Sample.regular)) = true.
Proof.
  apply (proj2 (proj2 (proj2
           (gates_monotone_in_role (Sample.request_of "GET" ∅ None)
              Sample.regular Sample.viewer eq_refl eq_refl eq_refl)))).
  reflexivity.
Defined.

(** X13 — [combineChecks] is the conjunction of its checks: it calls
    [next()] exactly when every check does (always, for an empty array); and
    when the checks before some check all just call [next()] and that check
    does not, the combined gate does exactly what that check does, and the
    checks behind it are not run. *)
Theorem combineChecks_conjunction
    (checks : list (request → trace)) (req : request) :
  passes (combineChecks checks req) = forallb (λ check, passes (check req)) checks
  ∧ (∀ before check behind,
       checks = (before ++ check :: behind)%list →
       Forall (λ c, c req = [Plain Next]) before →
       passes (check req) = false →
       combineChecks checks req = check req).
Proof.
  unfold combineChecks. split.
  - induction checks as [| check rest IH]; [done |].
    cbn [runChecks forallb].
    rewrite (passes_flat_map _ _ (runChecks rest req)) by done.
    by rewrite IH.
  - intros before check behind -> Hbefore Hfail.
    induction Hbefore as [| c before Hc _ IH]; cbn [app runChecks].
    + by apply (flat_map_no_next _ _ (runChecks behind req)).
    + rewrite Hc. cbn. by rewrite app_nil_r.
Qed.

Lemma combineChecks_conjunction_witness :
  combineChecks
    [ requireRole (Many ["admin"; "user"]);
      requirePermission (One "users:delete");
      requireAnyPermission [] ]
    (Sample.request_of "DELETE" ∅ (Some Sample.regular))
  = [insufficient ["users:delete"]].
Proof.
  etrans;
    [ apply (proj2 (combineChecks_conjunction _ _)
               [requireRole (Many ["admin"; "user"])]
               (requirePermission (One "users:delete"))
               [requireAnyPermission []]);
        [reflexivity | by repeat constructor | reflexivity]
    | reflexivity ].
Defined.

(** X14 — no gate lets a request without an identity through: each of the
    six gates answers 401 "Authentication required" and nothing else, the
    ownership predicate is not consulted, and so does any non-empty
    [combineChecks] of gates that do. *)
Theorem no_identity_no_entry (req : request) :
  user req = None →
  (∀ allowedRoles, requireRole allowedRoles req = [Plain unauthorized])
  ∧ (∀ ps, requirePermission ps req = [Plain unauthorized])
  ∧ (∀ ps, requireAnyPermission ps req = [Plain unauthorized])
  ∧ (∀ minimumRole, requireRoleLevel minimumRole req = [unauthorized])
  ∧ (∀ builtin_member resource,
       requireResourceAccess builtin_member resource req = [unauthorized])
  ∧ (∀ ownershipCheck, requireOwnership ownershipCheck req = [unauthorized])
  ∧ (∀ check checks,
       Forall (λ c, c req = [Plain unauthorized]) (check :: checks) →
       combineChecks (check :: checks) req = [Plain unauthorized])
  ∧ status [Plain unauthorized] = Some 401.
Proof.
  intros Hu.
  unfold requireRole, requirePermission, requireAnyPermission, requireRoleLevel,
    requireResourceAccess, requireOwnership, combineChecks.
  rewrite Hu. repeat split.
  intros check checks [Hc _]%Forall_cons. cbn [runChecks]. by rewrite Hc.
Qed.

Lemma no_identity_no_entry_witness :
  combineChecks [requireRole (One "admin"); requirePermission (One "users:read")]
    (Sample.request_of "GET" ∅ None) = [Plain unauthorized].
Proof.
  apply (proj1 (proj2 (proj2 (proj2 (proj2 (proj2 (proj2
           (no_identity_no_entry (Sample.request_of "GET" ∅ None) eq_refl)))))))).
  by repeat constructor.
Defined.

Ltac answered :=
  eexists; split; [reflexivity |]; split; [reflexivity |]; right;
  apply (bool_decide_unpack _); vm_compute; exact I.

Ltac went_on :=
  eexists; split; [reflexivity |]; split; [reflexivity |]; by left.

(** X15 — each synchronous gate does exactly one thing on every request: it
    calls [next()] or sends a single response with status 401, 403 or 405.
    No exception escapes: [hasPermission] is only reached with an enumerated
    role, where it cannot throw. *)
Theorem sync_gates_single_outcome (req : request) :
  let single (t : trace) :=
    ∃ e, t = [e] ∧ escapes e = false
         ∧ (e = Plain Next ∨ status [e] ∈ [Some 401; Some 403; Some 405]) in
  (∀ allowedRoles, single (requireRole allowedRoles req))
  ∧ (∀ ps, single (requirePermission ps req))
  ∧ (∀ ps, single (requireAnyPermission ps req))
  ∧ (∀ minimumRole, single (lift (requireRoleLevel minimumRole req)))
  ∧ (∀ builtin_member resource,
       single (lift (requireResourceAccess builtin_member resource req))).
Proof.
  cbv zeta.
  split; [| split; [| split; [| split]]].
  - intros allowedRoles. unfold requireRole.
    destruct (user req) as [u|]; [| answered]. cbv zeta.
    destruct (role_rejected (role u)); [answered |].
    case_bool_decide; cbn [negb]; [went_on | answered].
  - intros ps. unfold requirePermission.
    destruct (user req) as [u|]; [| answered]. cbv zeta.
    rewrite role_rejected_valid.
    destruct (isValidRole (role u)) eqn:Hrole; [| answered].
    cbn [negb]. rewrite (every_permission_valid _ _ Hrole).
    case_bool_decide; cbn [negb]; [went_on | answered].
  - intros ps. unfold requireAnyPermission.
    destruct (user req) as [u|]; [| answered]. cbv zeta.
    rewrite role_rejected_valid.
    destruct (isValidRole (role u)) eqn:Hrole; [| answered].
    cbn [negb]. rewrite (some_permission_valid _ _ Hrole).
    case_bool_decide; cbn [negb]; [went_on | answered].
  - intros minimumRole. unfold requireRoleLevel.
    destruct (user req) as [u|]; [| answered]. cbv zeta.
    destruct (role_rejected (role u)); [answered |].
    destruct (hasRoleLevel (role u) minimumRole); cbn [negb];
      [went_on | answered].
  - intros builtin_member resource. unfold requireResourceAccess.
    destruct (user req) as [u|]; [| answered]. cbv zeta.
    rewrite role_rejected_valid.
    destruct (isValidRole (role u)) eqn:Hrole; [| answered].
    cbn [negb].
    assert (∀ key, ∃ e,
              lift (check_resource builtin_member resource (role u) key) = [e]
              ∧ escapes e = false
              ∧ (e = Plain Next ∨ status [e] ∈ [Some 401; Some 403; Some 405]))
      as Hcheck.
    { intros key. unfold check_resource.
      destruct (getResourcePermission builtin_member resource key) as [p|];
        [| answered].
      destruct (hasPermission_never_throws_on_valid (role u) p Hrole) as [b ->].
      destruct b; [went_on | answered]. }
    destruct (Js.get methodToAction (method req)); [apply Hcheck | apply Hcheck |].
    answered.
Qed.

End GatesCompose.

(** ** Authentication in front of the routes *)

Module RoutesFacts.
Import Http Roles RolesFacts RolesApi Authorize.

Lemma continues_flat_map (f : effect → trace) t rest :
  (∀ e, f e = if is_next e then rest else [e]) →
  continues (flat_map f t) = continues t && continues rest.
Proof.
  intros Hf. unfold continues. induction t as [| e t IH]; [done |].
  cbn [flat_map existsb]. rewrite existsb_app, IH, Hf.
  destruct (is_next e) eqn:He; cbn.
  - by destruct (existsb is_next rest), (existsb is_next t).
  - by rewrite He.
Qed.

(** Where the map has no entry for the resource name the gate never
    passes. *)
Lemma requireResourceAccess_unmapped builtin_member resource req :
  Js.get RESOURCE_PERMISSIONS resource = Js.Undefined →
  continues (requireResourceAccess builtin_member resource req) = false.
Proof.
  intros Hnone. apply not_true_is_false.
  intros (u & action & p & _ & _ & _ & Hg & _)%GatesFacts.requireResourceAccess_passes.
  unfold getResourcePermission in Hg. by rewrite Hnone in Hg.
Qed.

Lemma entity_unmapped entityName :
  entityName ∈ EntityRoutes.entities →
  entityName ∉ [ "contract-metrics"; "token-analytics"; "oracle-feeds";
                 "alerts"; "risk-assessments" ] →
  Js.get RESOURCE_PERMISSIONS entityName = Js.Undefined.
Proof.
  intros Hin Hnot. unfold EntityRoutes.entities in Hin.
  repeat (apply elem_of_cons in Hin as [-> | Hin];
          [first [ reflexivity
                 | exfalso; apply Hnot; apply (bool_decide_unpack _);
                   vm_compute; exact I ] |]).
  by apply elem_of_nil in Hin.
Qed.

(** [authenticateToken] either verifies the cookie's token, attaches the
    payload and calls [next()], or rejects and leaves the request alone. *)
Lemma authenticateToken_cases L env now req :
  (∃ token decoded,
     cookies req !! "accessToken" = Some token ∧ token ≠ ""
     ∧ Env.jwt_verify L token (Env.JWT_SECRET env) now = Js.Return decoded
     ∧ Authenticate.authenticateToken L env now req = (set_user req decoded, [Next]))
  ∨ (∃ msg, Authenticate.authenticateToken L env now req
            = (req, [Authenticate.reject msg])).
Proof.
  unfold Authenticate.authenticateToken.
  destruct (Authenticate.accessToken req) as [token|] eqn:Ht; [| eauto].
  apply AuthenticateClaims.accessToken_some in Ht as [Hc Hne].
  destruct (Env.jwt_verify L token (Env.JWT_SECRET env) now) as [decoded | e] eqn:Hv.
  - left. by exists token, decoded.
  - right. destruct (String.eqb (Js.name e) "TokenExpiredError"); [eauto |].
    destruct (String.eqb (Js.name e) "JsonWebTokenError"); eauto.
Qed.

(** [requireResourceAccess] calls [next()] or answers 401, 403 or 405. *)
Lemma requireResourceAccess_outcome builtin_member resource req :
  requireResourceAccess builtin_member resource req = [Next]
  ∨ ∃ s b, requireResourceAccess builtin_member resource req = [Respond s b]
           ∧ s ∈ [401; 403; 405].
Proof.
  assert ((401 : Z) ∈ [401; 403; 405]) as H401
    by (apply (bool_decide_unpack _); vm_compute; exact I).
  assert ((403 : Z) ∈ [401; 403; 405]) as H403
    by (apply (bool_decide_unpack _); vm_compute; exact I).
  assert ((405 : Z) ∈ [401; 403; 405]) as H405
    by (apply (bool_decide_unpack _); vm_compute; exact I).
  unfold requireResourceAccess, unauthorized, invalid_role.
  destruct (user req) as [u|]; [| right; eauto]. cbv zeta.
  rewrite AuthorizeFacts.role_rejected_valid.
  destruct (isValidRole (role u)) eqn:Hrole; [| right; eauto]. cbn [negb].
  assert (∀ key,
    check_resource builtin_member resource (role u) key = [Next]
    ∨ ∃ s b, check_resource builtin_member resource (role u) key = [Respond s b]
             ∧ s ∈ [401; 403; 405]) as Hcheck.
  { intros key. unfold check_resource.
    destruct (getResourcePermission builtin_member resource key) as [p|];
      [| right; eauto].
    destruct (hasPermission_never_throws_on_valid (role u) p Hrole) as [b ->].
    destruct b; [by left | right; eauto]. }
  destruct (Js.get methodToAction (method req)); [apply Hcheck | apply Hcheck |].
  right; eauto.
Qed.

End RoutesFacts.

Module RoutesExtra.
Import Http Env Roles RolesFacts RolesApi Authorize Authenticate.
Import AuthenticateClaims RoutesFacts.

(** X16 — strict and optional authentication hand on the same request, and
    strict mode calls [next()] exactly for the requests to which optional
    mode attaches a verified identity; on those the two do exactly the same,
    on all others strict mode answers 401. *)
Theorem strict_and_optional_agree
    (L : lib) (env : process_env) (now : Z) (req : request) :
  let strict := authenticateToken L env now req in
  let optional := optionalAuth L env now req in
  fst strict = fst optional
  ∧ (continues (snd strict) = true ↔
     ∃ token decoded,
       cookies req !! "accessToken" = Some token ∧ token ≠ ""
       ∧ jwt_verify L token (JWT_SECRET env) now = Js.Return decoded
       ∧ fst optional = set_user req decoded)
  ∧ (continues (snd strict) = true → strict = optional)
  ∧ (continues (snd strict) = false → denied_with 401 (snd strict)).
Proof.
  cbv zeta. unfold authenticateToken, optionalAuth.
  destruct (accessToken req) as [token|] eqn:Ht.
  - apply accessToken_some in Ht as [Hc Hne].
    destruct (jwt_verify L token (JWT_SECRET env) now) as [decoded | e] eqn:Hv.
    + repeat split; try done. intros _. by exists token, decoded.
    + assert (∀ msg, continues [reject msg] = false) as Hrej by done.
      destruct (String.eqb (Js.name e) "TokenExpiredError");
        [| destruct (String.eqb (Js.name e) "JsonWebTokenError")];
        (split; [done |]; split;
         [split; [done | intros (t' & d' & Hc' & _ & Hv' & _); congruence]
         | split; [done | by split]]).
  - repeat split; try done.
    intros (t' & d' & Hc' & Hne' & _).
    apply accessToken_none in Ht as [Hc | Hc]; congruence.
Qed.

Lemma strict_and_optional_agree_witness :
  authenticateToken Reference.lib Reference.env (Sample.t0 + 1000)
    (Sample.request_of "GET" {["accessToken" := Sample.admin_access_token]} None)
  = optionalAuth Reference.lib Reference.env (Sample.t0 + 1000)
      (Sample.request_of "GET" {["accessToken" := Sample.admin_access_token]} None).
Proof.
  apply (proj1 (proj2 (proj2
           (strict_and_optional_agree Reference.lib Reference.env
              (Sample.t0 + 1000)
              (Sample.request_of "GET"
                 {["accessToken" := Sample.admin_access_token]} None))))).
  reflexivity.
Defined.

(** X17 — an entity route's handler is only reached behind a verified access
    token: when [authenticateToken] and [requireResourceAccess] both call
    [next()], the cookie held a token that [jwt.verify] accepted, the
    decoded payload is [req.user], its role is enumerated, the verb is one
    of the five, and the role holds a permission of the very action the verb
    stands for.  Otherwise the answer is 401, 403 or 405. *)
Theorem entity_guard_sound
    (L : lib) (env : process_env) (builtin_member : string → string → bool)
    (now : Z) (entityName : string) (req : request) :
  let r := EntityRoutes.guard L env builtin_member now entityName req in
  (continues (snd r) = true →
   ∃ token decoded action (p : string),
     cookies req !! "accessToken" = Some token
     ∧ jwt_verify L token (JWT_SECRET env) now = Js.Return decoded
     ∧ user (fst r) = Some decoded
     ∧ isValidRole (role decoded) = true
     ∧ (method req, action) ∈ [ ("GET", "read"); ("POST", "create");
                                ("PUT", "update"); ("PATCH", "update");
                                ("DELETE", "delete") ]
     ∧ hasPermission (role decoded) (Js.VStr p) = Js.Return true
     ∧ action_part p = action)
  ∧ (continues (snd r) = false →
     ∃ s, status_of (snd r) = Some s ∧ s ∈ [401; 403; 405]).
Proof.
  cbv zeta. unfold EntityRoutes.guard.
  assert (∀ s : Z, s ∈ [401; 403; 405] →
            ∀ b, ∃ s', status_of [Respond s b] = Some s' ∧ s' ∈ [401; 403; 405])
    as Hanswer by (intros s Hs b; by exists s).
  destruct (authenticateToken_cases L env now req)
    as [(token & decoded & Hc & Hne & Hv & ->) | (msg & ->)].
  - cbn [fst snd flat_map is_next]. rewrite app_nil_r. split.
    + intros (u & action & p & [= <-] & Hrole & Htable & _ & _ & Ha & Hin)%GatesFacts.requireResourceAccess_passes.
      exists token, decoded, action, p. repeat split; try done.
      rewrite (hasPermission_known_role _ _ Hrole). f_equal.
      by apply bool_decide_eq_true.
    + destruct (requireResourceAccess_outcome builtin_member entityName
                  (set_user req decoded)) as [-> | (s & b & -> & Hs)]; [done |].
      intros _. by apply Hanswer.
  - cbn. split; [done |]. intros _. exists 401. split; [done |].
    apply (bool_decide_unpack _). vm_compute. exact I.
Qed.

Lemma entity_guard_sound_witness :
  ∃ s, status_of
         (snd (EntityRoutes.guard Reference.lib Reference.env
                 Sample.builtin_member (Sample.t0 + 1000) "markets"
                 (Sample.request_of "GET"
                    {["accessToken" := Sample.admin_access_token]} None)))
       = Some s ∧ s ∈ [401; 403; 405].
Proof.
  apply (proj2 (entity_guard_sound Reference.lib Reference.env
                  Sample.builtin_member (Sample.t0 + 1000) "markets"
                  (Sample.request_of "GET"
                     {["accessToken" := Sample.admin_access_token]} None))).
  reflexivity.
Defined.

(** X18 — of the 25 entities whose routes are created, only
    contract-metrics, token-analytics, oracle-feeds, alerts and
    risk-assessments have an entry in the Resource-Action Map.  On the
    routes of the other 20 the handler is never reached, whatever the token,
    the role (admin included) and the verb. *)
Theorem unmapped_entities_unreachable
    (L : lib) (env : process_env) (builtin_member : string → string → bool)
    (now : Z) (entityName : string) (req : request) :
  entityName ∈ EntityRoutes.entities →
  entityName ∉ [ "contract-metrics"; "token-analytics"; "oracle-feeds";
                 "alerts"; "risk-assessments" ] →
  continues (snd (EntityRoutes.guard L env builtin_member now entityName req))
  = false.
Proof.
  intros Hin Hnot. unfold EntityRoutes.guard.
  destruct (authenticateToken L env now req) as [req' t]. cbn [snd].
  rewrite (continues_flat_map _ _
             (requireResourceAccess builtin_member entityName req')) by done.
  rewrite (requireResourceAccess_unmapped _ _ _ (entity_unmapped _ Hin Hnot)).
  apply andb_false_r.
Qed.

Lemma unmapped_entities_unreachable_witness :
  continues
    (snd (EntityRoutes.guard Reference.lib Reference.env Sample.builtin_member
            (Sample.t0 + 1000) "treasury-transactions"
            (Sample.request_of "GET"
               {["accessToken" := Sample.admin_access_token]} None))) = false.
Proof.
  apply unmapped_entities_unreachable;
    [ apply (bool_decide_unpack _); vm_compute; exact I
    | apply (bool_decide_unpack _); vm_compute; exact I ].
Defined.

End RoutesExtra.

(** ** The other handlers of the auth router *)

Module AuthRoutesFacts.
Import Http Env Auth AuthFacts AuthRoutes.

Lemma ids_in_sequence_snoc us u :
  ids_in_sequence us →
  id u = pretty (length us + 1)%nat →
  ids_in_sequence (us ++ [u]).
Proof.
  unfold ids_in_sequence. intros Hus Hu.
  rewrite map_app, length_app, Hus. cbn [length map].
  rewrite Nat.add_1_r, seq_S, map_app. cbn [map].
  rewrite Nat.add_0_l, Hu. by rewrite Nat.add_1_r.
Qed.

Lemma ids_in_sequence_NoDup us :
  ids_in_sequence us → NoDup (map id us).
Proof.
  unfold ids_in_sequence. intros ->.
  assert (Inj (=) (=) (λ i : nat, pretty (i + 1)%nat)) as Hinj.
  { intros i j Hij. apply (inj pretty) in Hij. lia. }
  apply (NoDup_fmap_2 _), NoDup_seq.
Qed.

Lemma find_email_none us e :
  find (λ u, String.eqb (email u) e) us = None → e ∉ map email us.
Proof.
  induction us as [| u us IH]; cbn [find map]; [intros _; apply not_elem_of_nil |].
  destruct (String.eqb_spec (email u) e) as [| Hne]; [done |].
  intros Hnone%IH. apply not_elem_of_cons. split; [congruence | done].
Qed.

Lemma find_snoc_new us (u : user) e :
  find (λ u, String.eqb (email u) e) us = None →
  email u = e →
  find (λ u, String.eqb (email u) e) (us ++ [u]) = Some u.
Proof.
  intros Hnone He. induction us as [| v us IH]; cbn [find app] in *.
  - by rewrite He, String.eqb_refl.
  - destruct (String.eqb (email v) e); [done | by apply IH].
Qed.

Ltac listed := apply (bool_decide_unpack _); vm_compute; exact I.

Lemma register_checks_none st e p n :
  register_checks st e p n = None ↔
  e ≠ "" ∧ p ≠ "" ∧ n ≠ ""
  ∧ find (λ u, String.eqb (email u) e) (users st) = None.
Proof.
  unfold register_checks, Js.truthy_string.
  destruct (String.eqb_spec e "") as [-> | He]; cbn [negb orb]; [by intuition |].
  destruct (String.eqb_spec p "") as [-> | Hp]; cbn [negb orb]; [by intuition |].
  destruct (String.eqb_spec n "") as [-> | Hn]; cbn [negb orb]; [by intuition |].
  destruct (find _ (users st)); [| done].
  split; [done | by intros (_ & _ & _ & ?)].
Qed.

Section WithLib.
Variable L : lib.
Variable env : process_env.
Variable bcrypt_hash : string → Z → Js.result string.

(** What the resumed [POST /register] does to the table: it pushes the new
    user whenever the hash was computed, whether or not signing throws. *)
Lemma register_resume_users now st e n hashed :
  users (fst (register_resume L env now st e n hashed))
  = match hashed with
    | Js.Return h => (users st ++ [newUser now (users st) e h n])%list
    | Js.Throw _ => users st
    end.
Proof.
  unfold register_resume. destruct hashed as [h | err]; [| done].
  by destruct (generateTokens L env now _) as [[a rt] | err].
Qed.

(** The ways [POST /register] can end when no other request is served in
    between. *)
Lemma register_cases now st e p n :
  let r := register L env bcrypt_hash now st e p n in
  (fst r = st ∧ status_of (snd r) ∈ [Some 400; Some 409; Some 500])
  ∨ (∃ h,
       find (λ u, String.eqb (email u) e) (users st) = None
       ∧ bcrypt_hash p 10 = Js.Return h
       ∧ e ≠ "" ∧ p ≠ "" ∧ n ≠ ""
       ∧ users (fst r) = (users st ++ [newUser now (users st) e h n])%list
       ∧ ((status_of (snd r) = Some 500
           ∧ refreshTokens (fst r) = refreshTokens st
           ∧ ∃ err, generateTokens L env now (newUser now (users st) e h n)
                    = Js.Throw err)
          ∨ (status_of (snd r) = Some 201
             ∧ ∃ a rt,
                 generateTokens L env now (newUser now (users st) e h n)
                 = Js.Return (a, rt)
                 ∧ refreshTokens (fst r) = {[rt]} ∪ refreshTokens st
                 ∧ snd r
                   = (setAuthCookies env a rt ++
                      [Respond 201
                         [ ("user",
                            Js.VObj (userWithoutPassword
                                       (newUser now (users st) e h n)));
                           ("message", Js.VStr "Registration successful") ]])%list))).
Proof.
  cbv zeta. unfold register, register_checks, register_resume, Js.truthy_string.
  destruct (String.eqb_spec e "") as [-> | He]; cbn [negb orb].
  { left. split; [done |]. listed. }
  destruct (String.eqb_spec p "") as [-> | Hp]; cbn [negb orb].
  { left. split; [done |]. listed. }
  destruct (String.eqb_spec n "") as [-> | Hn]; cbn [negb orb].
  { left. split; [done |]. listed. }
  destruct (find _ (users st)) as [existing|] eqn:Hfind.
  { left. split; [done |]. listed. }
  destruct (bcrypt_hash p 10) as [h | err] eqn:Hh.
  2:{ left. split; [done |]. listed. }
  right. exists h.
  destruct (generateTokens L env now _) as [[a rt] | err] eqn:Hg.
  - repeat split; try done. right. split; [done |]. by exists a, rt.
  - repeat split; try done. left. repeat split; try done. by exists err.
Qed.

(** The ways [POST /login] can end. *)
Lemma login_cases now st e p :
  let r := login L env now st e p in
  (fst r = st
   ∧ status_of (snd r) ∈ [Some 400; Some 401; Some 500]
   ∧ AuthRoutes.cookie_set "accessToken" (snd r) = None
   ∧ AuthRoutes.cookie_set "refreshToken" (snd r) = None)
  ∨ (∃ u a rt,
       find (λ u, String.eqb (email u) e) (users st) = Some u
       ∧ bcrypt_compare L p (password u) = Js.Return true
       ∧ generateTokens L env now u = Js.Return (a, rt)
       ∧ fst r = {| users := users st; refreshTokens := {[rt]} ∪ refreshTokens st |}
       ∧ snd r
         = (setAuthCookies env a rt ++
            [Respond 200 [ ("user", Js.VObj (userWithoutPassword u));
                           ("message", Js.VStr "Login successful") ]])%list).
Proof.
  cbv zeta. unfold login.
  destruct (negb (Js.truthy_string e) || negb (Js.truthy_string p)).
  { left. repeat split; try done. listed. }
  destruct (find _ (users st)) as [u|] eqn:Hfind.
  2:{ left. repeat split; try done. listed. }
  destruct (bcrypt_compare L p (password u)) as [[|] | err] eqn:Hc.
  - destruct (generateTokens L env now u) as [[a rt] | err] eqn:Hg.
    + right. by exists u, a, rt.
    + left. repeat split; try done.
      listed.
  - left. repeat split; try done. listed.
  - left. repeat split; try done.
    listed.
Qed.

End WithLib.

End AuthRoutesFacts.

Module AuthRoutesExtra.
Import Http Env Auth AuthFacts AuthRoutes AuthRoutesFacts.

(** X19 — [POST /logout] always answers 200 and never touches the users.
    With a refresh cookie it takes exactly that token out of the registry,
    and a later [POST /refresh] with the cookie is answered 401; without one
    the state is unchanged.  Logging out twice is the same as once. *)
Theorem logout_revokes (env : process_env) (st : state) (req : request) :
  let r := logout env st req in
  status_of (snd r) = Some 200
  ∧ users (fst r) = users st
  ∧ (∀ token,
       cookies req !! "refreshToken" = Some token → token ≠ "" →
       refreshTokens (fst r) = refreshTokens st ∖ {[token]}
       ∧ ∀ L now, status_of (snd (refresh L env now (fst r) req)) = Some 401)
  ∧ (cookies req !! "refreshToken" = None → fst r = st)
  ∧ fst (logout env (fst r) req) = fst r.
Proof.
  cbv zeta. unfold logout. cbn [fst snd].
  destruct (cookies req !! "refreshToken") as [token|] eqn:Hc.
  - unfold Js.truthy_string.
    destruct (String.eqb_spec token "") as [-> | Hne]; cbn [negb].
    + split; [done | split; [done | split; [| done]]].
      by intros t [= <-] [].
    + cbn [users refreshTokens].
      split; [done | split; [done | split; [| split; [done |]]]].
      * intros t [= <-] _. split; [done |]. intros L now.
        rewrite (refresh_unregistered L env now _ req token Hc); [done |].
        cbn [refreshTokens]. rewrite elem_of_difference, elem_of_singleton. tauto.
      * f_equal. apply set_eq. intros x.
        rewrite !elem_of_difference. tauto.
  - done.
Qed.

Lemma logout_revokes_witness :
  let st := fst (login Reference.lib Reference.env Sample.t0 (initial Sample.loaded)
                   "admin@lumanagi.com" "demo123") in
  let req :=
    Sample.request_of "POST" {["refreshToken" := Sample.admin_refresh_token]} None in
  status_of
    (snd (refresh Reference.lib Reference.env (Sample.t0 + 5000)
            (fst (logout Reference.env st req)) req)) = Some 401.
Proof.
  cbv zeta.
  pose proof (logout_revokes Reference.env
                (fst (login Reference.lib Reference.env Sample.t0 (initial Sample.loaded)
                        "admin@lumanagi.com" "demo123"))
                (Sample.request_of "POST"
                   {["refreshToken" := Sample.admin_refresh_token]} None)) as H.
  cbv zeta in H. destruct H as (_ & _ & H & _).
  destruct (H Sample.admin_refresh_token) as [_ Hrefresh];
    [reflexivity | discriminate |].
  apply Hrefresh.
Defined.

(** X20 — [POST /login] registers exactly what it hands out: on 200 the
    registry grows by the one token that is set as the refresh cookie, and
    the users are untouched; on every other answer (400, 401, 500) the state
    is unchanged and no cookie is set. *)
Theorem login_registers_what_it_issues
    (L : lib) (env : process_env) (now : Z) (st : state) (e p : string) :
  let r := login L env now st e p in
  (status_of (snd r) = Some 200 →
   ∃ accessToken refreshToken,
     cookie_set "accessToken" (snd r) = Some accessToken
     ∧ cookie_set "refreshToken" (snd r) = Some refreshToken
     ∧ generateTokens L env now <$> find (λ u, String.eqb (email u) e) (users st)
       = Some (Js.Return (accessToken, refreshToken))
     ∧ refreshTokens (fst r) = {[refreshToken]} ∪ refreshTokens st
     ∧ users (fst r) = users st)
  ∧ (status_of (snd r) ≠ Some 200 →
     fst r = st
     ∧ cookie_set "accessToken" (snd r) = None
     ∧ cookie_set "refreshToken" (snd r) = None).
Proof.
  cbv zeta.
  destruct (login_cases L env now st e p)
    as [(Hst & Hs & Ha & Hr) | (u & a & rt & Hfind & _ & Hg & Hst & Ht)].
  - split; [| done]. intros H200. rewrite H200 in Hs.
    repeat (apply elem_of_cons in Hs as [[=] | Hs]). by apply elem_of_nil in Hs.
  - rewrite Hst, Ht. split; [| by intros []].
    intros _. exists a, rt. rewrite Hfind. cbn. by rewrite Hg.
Qed.

Lemma login_registers_what_it_issues_witness :
  ∃ accessToken refreshToken,
    cookie_set "accessToken"
      (snd (login Reference.lib Reference.env Sample.t0 (initial Sample.loaded)
              "admin@lumanagi.com" "demo123")) = Some accessToken
    ∧ cookie_set "refreshToken"
        (snd (login Reference.lib Reference.env Sample.t0 (initial Sample.loaded)
                "admin@lumanagi.com" "demo123")) = Some refreshToken
    ∧ generateTokens Reference.lib Reference.env Sample.t0
        <$> find (λ u, String.eqb (email u) "admin@lumanagi.com") (users (initial Sample.loaded))
      = Some (Js.Return (accessToken, refreshToken))
    ∧ refreshTokens
        (fst (login Reference.lib Reference.env Sample.t0 (initial Sample.loaded)
                "admin@lumanagi.com" "demo123"))
      = {[refreshToken]} ∪ refreshTokens (initial Sample.loaded)
    ∧ users (fst (login Reference.lib Reference.env Sample.t0 (initial Sample.loaded)
                    "admin@lumanagi.com" "demo123")) = users (initial Sample.loaded).
Proof.
  apply (proj1 (login_registers_what_it_issues Reference.lib Reference.env
                  Sample.t0 (initial Sample.loaded) "admin@lumanagi.com" "demo123")).
  reflexivity.
Defined.

(** X21 — [POST /login] answers an unknown email and a password that
    [bcrypt.compare] finds wrong alike: the same 401 "Invalid credentials",
    the state unchanged, no cookie.  It does tell apart a stored account on
    which [bcrypt.compare] throws, as it does on the accounts that
    [POST /google] stores with [password: null]: for such an email the answer
    is 500 "Login failed", whatever the password, and an unknown email never
    gets that answer. *)
Theorem login_hides_which_part_was_wrong
    (L : lib) (env : process_env) (now : Z) (st : state) (e p : string) :
  e ≠ "" → p ≠ "" →
  let r := login L env now st e p in
  (find (λ u, String.eqb (email u) e) (users st) = None →
   r = (st, [Respond 401 [("error", Js.VStr "Invalid credentials")]]))
  ∧ (∀ u, find (λ u, String.eqb (email u) e) (users st) = Some u →
          bcrypt_compare L p (password u) = Js.Return false →
          r = (st, [Respond 401 [("error", Js.VStr "Invalid credentials")]]))
  ∧ (∀ u err, find (λ u, String.eqb (email u) e) (users st) = Some u →
              bcrypt_compare L p (password u) = Js.Throw err →
              r = (st, [ ConsoleError "Login error:" err;
                         Respond 500 [("error", Js.VStr "Login failed")] ]))
  ∧ (status_of (snd r) = Some 500 →
     ∃ u, find (λ u, String.eqb (email u) e) (users st) = Some u).
Proof.
  intros He%String.eqb_neq Hp%String.eqb_neq. cbv zeta.
  unfold login, Js.truthy_string. rewrite He, Hp. cbn [negb orb].
  split; [| split; [| split]].
  - by intros ->.
  - by intros u -> ->.
  - by intros u err -> ->.
  - destruct (find _ (users st)) as [u|]; [by exists u | done].
Qed.

Lemma login_hides_which_part_was_wrong_witness :
  let google_user :=
    {| id := "3"; email := "g@lumanagi.com"; password := None;
       full_name := "G User"; role := "user"; created_at := Sample.t0;
       google := Some {| google_id := "108"; avatar_url := None; linked := false |} |} in
  let st := {| users := (users (initial Sample.loaded) ++ [google_user])%list;
               refreshTokens := ∅ |} in
  login Reference.lib Reference.env Sample.t0 st "nobody@lumanagi.com" "demo123"
  = login Reference.lib Reference.env Sample.t0 st "admin@lumanagi.com" "guess"
  ∧ status_of (snd (login Reference.lib Reference.env Sample.t0 st
                      "g@lumanagi.com" "guess")) = Some 500.
Proof.
  cbv zeta.
  set (st := {| users := (users (initial Sample.loaded) ++ _)%list;
                refreshTokens := ∅ |}).
  destruct (login_hides_which_part_was_wrong Reference.lib Reference.env
              Sample.t0 st "nobody@lumanagi.com" "demo123")
    as (Hunknown & _); [discriminate | discriminate |].
  destruct (login_hides_which_part_was_wrong Reference.lib Reference.env
              Sample.t0 st "admin@lumanagi.com" "guess")
    as (_ & Hwrong & _); [discriminate | discriminate |].
  destruct (login_hides_which_part_was_wrong Reference.lib Reference.env
              Sample.t0 st "g@lumanagi.com" "guess")
    as (_ & _ & Hthrows & _); [discriminate | discriminate |].
  split.
  - rewrite (Hunknown eq_refl). symmetry. by eapply Hwrong.
  - by erewrite Hthrows.
Defined.

(** X22 — [POST /register] keeps the ids of the table distinct however
    registrations are interleaved at the [await]: whenever the handler
    resumes on a table in which user [i] has id [i + 1], the same holds
    afterwards; the table grows by at most one user, whose role is [user].
    The emails are another matter.  They stay pairwise distinct when the
    email is still absent at the moment the handler resumes, as it is when
    no other request is served in between; but the email is not looked up
    again after the [await], so two registrations of one email that both
    pass the check before either resumes are both stored. *)
Theorem register_keeps_ids_distinct
    (L : lib) (env : process_env) (bcrypt_hash : string → Z → Js.result string)
    (now now' : Z) (st : state) (e p n p' n' h h' : string)
    (hashed : Js.result string) :
  ids_in_sequence (users st) →
  let resumed := fst (register_resume L env now st e n hashed) in
  (ids_in_sequence (users resumed)
   ∧ NoDup (map id (users resumed))
   ∧ (users resumed = users st
      ∨ ∃ u, users resumed = (users st ++ [u])%list ∧ role u = "user" ∧ email u = e))
  ∧ (NoDup (map email (users st)) → e ∉ map email (users st) →
     NoDup (map email (users resumed)))
  ∧ (NoDup (map email (users st)) →
     NoDup (map email (users (fst (register L env bcrypt_hash now st e p n)))))
  ∧ (register_checks st e p n = None → register_checks st e p' n' = None →
     let first := fst (register_resume L env now st e n (Js.Return h)) in
     let second := fst (register_resume L env now' first e n' (Js.Return h')) in
     users second
     = (users st ++ [ newUser now (users st) e h n;
                      newUser now' (users first) e h' n' ])%list
     ∧ ¬ NoDup (map email (users second))
     ∧ ids_in_sequence (users second)).
Proof.
  intros Hids. cbv zeta.
  assert (∀ now st e n hashed,
            ids_in_sequence (users st) →
            ids_in_sequence (users (fst (register_resume L env now st e n hashed))))
    as Hstep.
  { intros now0 st0 e0 n0 hashed0 Hids0. rewrite register_resume_users.
    destruct hashed0 as [h0 | err]; [| done]. by apply ids_in_sequence_snoc. }
  assert (∀ now st e n hashed,
            NoDup (map email (users st)) → e ∉ map email (users st) →
            NoDup (map email (users (fst (register_resume L env now st e n hashed)))))
    as Hfresh.
  { intros now0 st0 e0 n0 hashed0 Hemails Hnew. rewrite register_resume_users.
    destruct hashed0 as [h0 | err]; [| done].
    rewrite map_app. cbn [map email newUser].
    apply NoDup_app. repeat split; [done | | apply NoDup_singleton].
    by intros x Hx ->%list_elem_of_singleton. }
  split; [| split; [| split]].
  - split; [by apply Hstep |]. split; [by apply ids_in_sequence_NoDup, Hstep |].
    rewrite register_resume_users.
    destruct hashed as [h0 | err]; [right; by eexists | by left].
  - apply Hfresh.
  - intros Hemails. unfold register.
    destruct (register_checks st e p n) as [answer|] eqn:Hchecks; [done |].
    apply register_checks_none in Hchecks as (_ & _ & _ & Hfind).
    apply Hfresh; [done |]. by apply find_email_none.
  - intros _ _. split; [| split].
    + rewrite !register_resume_users. by rewrite <- app_assoc.
    + rewrite !register_resume_users, <- app_assoc, map_app.
      cbn [map email newUser app].
      intros Hnodup%NoDup_app. destruct Hnodup as (_ & _ & Hpair).
      apply NoDup_cons in Hpair as [Hnot _]. apply Hnot.
      by apply list_elem_of_singleton.
    + by apply Hstep, Hstep.
Qed.

Lemma register_keeps_ids_distinct_witness :
  let hash := λ (pw : string) (_ : Z), Js.Return ("hashed:" ++ pw) in
  let st := initial Sample.loaded in
  let first :=
    fst (register_resume Reference.lib Reference.env Sample.t0 st
           "new@lumanagi.com" "New User" (Js.Return "hashed:Passw0rd")) in
  let second :=
    fst (register_resume Reference.lib Reference.env (Sample.t0 + 40) first
           "new@lumanagi.com" "Other User" (Js.Return "hashed:0therPass")) in
  NoDup (map id (users first))
  ∧ NoDup (map email
             (users (fst (register Reference.lib Reference.env hash Sample.t0 st
                            "new@lumanagi.com" "Passw0rd" "New User"))))
  ∧ ¬ NoDup (map email (users second))
  ∧ ids_in_sequence (users second).
Proof.
  cbv zeta.
  destruct (register_keeps_ids_distinct Reference.lib Reference.env
              (λ pw _, Js.Return ("hashed:" ++ pw)) Sample.t0 (Sample.t0 + 40)
              (initial Sample.loaded) "new@lumanagi.com"
              "Passw0rd" "New User" "0therPass" "Other User"
              "hashed:Passw0rd" "hashed:0therPass" (Js.Return "hashed:Passw0rd"))
    as ((_ & Hids & _) & _ & Hseq & Hrace); [reflexivity |].
  destruct Hrace as (_ & Hdup & Hids2); [reflexivity | reflexivity |].
  split; [exact Hids |]. split; [| split; [exact Hdup | exact Hids2]].
  apply Hseq. apply (bool_decide_unpack _). vm_compute. exact I.
Defined.

(** X23 — [POST /register] pushes the new user before it signs the tokens.
    When signing throws, the answer is 500 "Registration failed" and no
    token is registered, but the user stays in the table: a second attempt
    with the same email is answered 409. *)
Theorem register_user_survives_failed_signing
    (L : lib) (env : process_env) (bcrypt_hash : string → Z → Js.result string)
    (now now' : Z) (st : state) (e p n p' n' h : string) (err : Js.error) :
  e ≠ "" → p ≠ "" → n ≠ "" → p' ≠ "" → n' ≠ "" →
  find (λ u, String.eqb (email u) e) (users st) = None →
  bcrypt_hash p 10 = Js.Return h →
  generateTokens L env now (newUser now (users st) e h n) = Js.Throw err →
  let r := register L env bcrypt_hash now st e p n in
  status_of (snd r) = Some 500
  ∧ refreshTokens (fst r) = refreshTokens st
  ∧ length (users (fst r)) = S (length (users st))
  ∧ e ∈ map email (users (fst r))
  ∧ register L env bcrypt_hash now' (fst r) e p' n'
    = (fst r, [Respond 409 [("error", Js.VStr "User already exists")]]).
Proof.
  intros He%String.eqb_neq Hp%String.eqb_neq Hn%String.eqb_neq
         Hp'%String.eqb_neq Hn'%String.eqb_neq Hfind Hh Hg.
  cbv zeta.
  set (new := newUser now (users st) e h n) in *.
  assert (register L env bcrypt_hash now st e p n
          = ({| users := users st ++ [new]; refreshTokens := refreshTokens st |},
             [ ConsoleError "Registration error:" err;
               Respond 500 [("error", Js.VStr "Registration failed")] ])) as ->.
  { unfold register, register_checks, register_resume, Js.truthy_string.
    rewrite He, Hp, Hn, Hfind, Hh. cbn [negb orb]. fold new. by rewrite Hg. }
  cbn [fst snd users refreshTokens].
  split; [done | split; [done | split; [| split]]].
  - rewrite length_app. cbn. lia.
  - rewrite map_app. apply elem_of_app. right. by apply list_elem_of_singleton.
  - unfold register, register_checks, Js.truthy_string.
    rewrite He, Hp', Hn'. cbn [negb orb users].
    by rewrite (find_snoc_new _ new e Hfind eq_refl).
Qed.

Lemma register_user_survives_failed_signing_witness :
  let failing : lib :=
    {| jwt_sign := λ _ _ _ _, Js.Throw (Js.Err "Error" "secretOrPrivateKey must have a value");
       jwt_verify := Reference.verify;
       bcrypt_compare := Reference.compare |} in
  let hash := λ (pw : string) (_ : Z), Js.Return ("hashed:" ++ pw) in
  let r := register failing Reference.env hash Sample.t0 (initial Sample.loaded)
             "new@lumanagi.com" "Passw0rd" "New User" in
  status_of (snd r) = Some 500
  ∧ status_of (snd (register failing Reference.env hash (Sample.t0 + 1000) (fst r)
                      "new@lumanagi.com" "Passw0rd" "New User")) = Some 409.
Proof.
  cbv zeta.
  pose proof (register_user_survives_failed_signing
                {| jwt_sign := λ _ _ _ _,
                     Js.Throw (Js.Err "Error" "secretOrPrivateKey must have a value");
                   jwt_verify := Reference.verify;
                   bcrypt_compare := Reference.compare |}
                Reference.env (λ pw _, Js.Return ("hashed:" ++ pw))
                Sample.t0 (Sample.t0 + 1000) (initial Sample.loaded)
                "new@lumanagi.com" "Passw0rd" "New User" "Passw0rd" "New User"
                "hashed:Passw0rd"
                (Js.Err "Error" "secretOrPrivateKey must have a value")) as H.
  cbv zeta in H.
  destruct H as (H500 & _ & _ & _ & H409);
    [discriminate | discriminate | discriminate | discriminate | discriminate
    | reflexivity | reflexivity | reflexivity |].
  split; [exact H500 |]. by rewrite H409.
Defined.

End AuthRoutesExtra.

Module AuthSessionExtra.
Import Http Env Auth AuthFacts AuthRoutes AuthRoutesFacts.

(** X24 — registration and login fit together: after a successful
    [POST /register], a [POST /login] with the same email and password, under
    a [bcrypt] whose [compare] accepts what its [hash] produced and a
    [jwt.sign] that does not throw, is answered 200 with the very user
    object the registration returned. *)
Theorem register_then_login
    (L : lib) (env : process_env) (bcrypt_hash : string → Z → Js.result string)
    (now now' : Z) (st : state) (e p n : string) :
  status_of (snd (register L env bcrypt_hash now st e p n)) = Some 201 →
  (∀ h, bcrypt_hash p 10 = Js.Return h →
        bcrypt_compare L p (Some h) = Js.Return true) →
  (∀ u, ∃ tokens, generateTokens L env now' u = Js.Return tokens) →
  let registered := register L env bcrypt_hash now st e p n in
  let r := login L env now' (fst registered) e p in
  status_of (snd r) = Some 200
  ∧ (∃ user, field "user" (default [] (body_of (snd r))) = Some user
             ∧ field "user" (default [] (body_of (snd registered))) = Some user).
Proof.
  intros H201 Hbcrypt Hsign. cbv zeta.
  destruct (register_cases L env bcrypt_hash now st e p n)
    as [[_ Hs] | (h & Hfind & Hh & He & Hp & _ & Husers & Hend)].
  { rewrite H201 in Hs.
    repeat (apply elem_of_cons in Hs as [[=] | Hs]). by apply elem_of_nil in Hs. }
  destruct Hend as [[H500 _] | (_ & a & rt & _ & _ & Htrace)]; [congruence |].
  set (new := newUser now (users st) e h n) in *.
  destruct (Hsign new) as [[a' rt'] Hg'].
  unfold login, Js.truthy_string.
  apply String.eqb_neq in He, Hp. rewrite He, Hp. cbn [negb orb].
  rewrite Husers, (find_snoc_new _ new e Hfind eq_refl).
  change (password new) with (Some h). rewrite (Hbcrypt h Hh), Hg'. cbn [fst snd].
  split; [done |]. rewrite Htrace. by eexists.
Qed.

Lemma register_then_login_witness :
  let lib' : lib :=
    {| jwt_sign := Reference.sign; jwt_verify := Reference.verify;
       bcrypt_compare := λ pw h, Js.Return (bool_decide (h = Some ("hashed:" ++ pw))) |} in
  let hash := λ (pw : string) (_ : Z), Js.Return ("hashed:" ++ pw) in
  status_of
    (snd (login lib' Reference.env (Sample.t0 + 60000)
            (fst (register lib' Reference.env hash Sample.t0 (initial Sample.loaded)
                    "new@lumanagi.com" "Passw0rd" "New User"))
            "new@lumanagi.com" "Passw0rd")) = Some 200.
Proof.
  cbv zeta.
  apply (register_then_login
           {| jwt_sign := Reference.sign; jwt_verify := Reference.verify;
              bcrypt_compare :=
                λ pw h, Js.Return (bool_decide (h = Some ("hashed:" ++ pw))) |}
           Reference.env (λ pw _, Js.Return ("hashed:" ++ pw))
           Sample.t0 (Sample.t0 + 60000) (initial Sample.loaded)
           "new@lumanagi.com" "Passw0rd" "New User").
  - reflexivity.
  - intros h [= <-]. reflexivity.
  - intros u. eexists. reflexivity.
Defined.



(** X26 — every cookie instruction that login, register, refresh and logout
    send, setting or clearing, is HTTP-only, [SameSite=strict], on path [/],
    and [Secure] exactly when [NODE_ENV] is [production]. *)
Theorem cookies_always_protected
    (L : lib) (env : process_env) (bcrypt_hash : string → Z → Js.result string)
    (now : Z) (st : state) (req : request) (e p n : string) :
  Forall (cookie_attributes_ok env) (snd (login L env now st e p))
  ∧ Forall (cookie_attributes_ok env) (snd (register L env bcrypt_hash now st e p n))
  ∧ Forall (cookie_attributes_ok env) (snd (refresh L env now st req))
  ∧ Forall (cookie_attributes_ok env) (snd (logout env st req)).
Proof.
  split; [| split; [| split]].
  - destruct (login_cases L env now st e p)
      as [(_ & _ & Ha & Hr) | (u & a & rt & _ & _ & _ & _ & ->)].
    + unfold login in *. repeat case_match; by repeat constructor.
    + by repeat constructor.
  - unfold register, register_checks, register_resume.
    repeat case_match; simplify_eq; by repeat constructor.
  - unfold refresh. repeat case_match; by repeat constructor.
  - unfold logout. by repeat constructor.
Qed.

End AuthSessionExtra.

(** ** Client key and 429 body *)

Module KeyFacts.
Import Http RateLimiter.

Lemma before_comma_no_comma s : ("," : ascii) ∉ list_ascii_of_string (before_comma s).
Proof.
  induction s as [| c s IH]; cbn; [apply not_elem_of_nil |].
  destruct (Ascii.eqb c ",") eqn:Hc; cbn; [apply not_elem_of_nil |].
  apply not_elem_of_cons. split; [| exact IH].
  intros <-. by rewrite Ascii.eqb_refl in Hc.
Qed.

Lemma before_comma_id s : ("," : ascii) ∉ list_ascii_of_string s → before_comma s = s.
Proof.
  induction s as [| c s IH]; cbn; [done |]. intros Hno.
  apply not_elem_of_cons in Hno as [Hc Hs].
  destruct (Ascii.eqb c ",") eqn:Heq.
  - apply Ascii.eqb_eq in Heq. congruence.
  - by rewrite IH.
Qed.

Lemma trim_start_sub s c : c ∈ list_ascii_of_string (trim_start s) → c ∈ list_ascii_of_string s.
Proof.
  induction s as [| d s IH]; cbn; [done |].
  destruct (is_space d); [| done]. intros H. apply elem_of_cons. right. by apply IH.
Qed.

Lemma trim_end_sub s c : c ∈ list_ascii_of_string (trim_end s) → c ∈ list_ascii_of_string s.
Proof.
  induction s as [| d s IH]; cbn; [done |].
  destruct (trim_end s) as [| e t] eqn:Ht.
  - destruct (is_space d); cbn; [intros H; by apply elem_of_nil in H |].
    intros H. apply list_elem_of_singleton in H as ->. apply elem_of_cons. by left.
  - cbn. intros H. apply elem_of_cons in H as [-> | H]; apply elem_of_cons;
      [by left | right]. by apply IH.
Qed.

Lemma trim_start_head s c :
  head (list_ascii_of_string (trim_start s)) = Some c → is_space c = false.
Proof.
  induction s as [| d s IH]; cbn; [done |].
  destruct (is_space d) eqn:Hd; [exact IH |]. cbn. by intros [= <-].
Qed.

Lemma trim_start_id s :
  (∀ c, head (list_ascii_of_string s) = Some c → is_space c = false) → trim_start s = s.
Proof.
  destruct s as [| d s]; cbn; [done |]. intros H. by rewrite (H d eq_refl).
Qed.

Lemma trim_end_head s c :
  head (list_ascii_of_string s) = Some c → is_space c = false →
  head (list_ascii_of_string (trim_end s)) = Some c.
Proof.
  destruct s as [| d s]; cbn; [done |]. intros [= ->] Hc.
  destruct (trim_end s); [rewrite Hc |]; done.
Qed.

Lemma trim_end_last s c :
  last (list_ascii_of_string (trim_end s)) = Some c → is_space c = false.
Proof.
  induction s as [| d s IH]; cbn; [done |].
  destruct (trim_end s) as [| e t] eqn:Ht.
  - destruct (is_space d) eqn:Hd; cbn; [done |]. by intros [= <-].
  - cbn [list_ascii_of_string]. rewrite last_cons. cbn [list_ascii_of_string] in IH.
    destruct (last (e :: list_ascii_of_string t)) as [l|] eqn:Hl; [| by rewrite last_cons in Hl; destruct (last (list_ascii_of_string t))].
    intros [= <-]. by apply IH.
Qed.

Lemma trim_end_id s :
  (∀ c, last (list_ascii_of_string s) = Some c → is_space c = false) → trim_end s = s.
Proof.
  induction s as [| d s IH]; cbn; [done |]. intros H.
  rewrite last_cons in H.
  destruct s as [| e t].
  - cbn in *. by rewrite (H d eq_refl).
  - rewrite IH; [done |]. intros c Hc. apply H. by rewrite Hc.
Qed.

End KeyFacts.

Module RateLimiterExtra.
Import Http RateLimiter RateLimiterFacts KeyFacts.

(** X27 — the client key of [keyGenerator]: without an [X-Forwarded-For]
    header, or with an empty one, it is [req.ip]; with a header it is taken
    from the header alone, holds no comma, and neither begins nor ends with
    white space; a header that is already a bare address (no comma, no
    surrounding white space) is the key itself. *)
Theorem keyGenerator_key (req : request) :
  let key := keyGenerator req in
  ((headers req !! "x-forwarded-for" = None
    ∨ headers req !! "x-forwarded-for" = Some "") → key = ip req)
  ∧ (∀ forwarded,
       headers req !! "x-forwarded-for" = Some forwarded → forwarded ≠ "" →
       (("," : ascii) ∉ list_ascii_of_string key)
       ∧ (∀ c, c ∈ list_ascii_of_string key → c ∈ list_ascii_of_string forwarded)
       ∧ (∀ c, head (list_ascii_of_string key) = Some c → is_space c = false)
       ∧ (∀ c, last (list_ascii_of_string key) = Some c → is_space c = false)
       ∧ (("," : ascii) ∉ list_ascii_of_string forwarded →
          (∀ c, head (list_ascii_of_string forwarded) = Some c → is_space c = false) →
          (∀ c, last (list_ascii_of_string forwarded) = Some c → is_space c = false) →
          key = forwarded)).
Proof.
  cbv zeta. unfold keyGenerator. split.
  - by intros [-> | ->].
  - intros forwarded -> Hne.
    assert (Js.truthy_string forwarded = true) as ->.
    { unfold Js.truthy_string. by destruct forwarded. }
    assert (∀ c, c ∈ list_ascii_of_string (trim (before_comma forwarded))
                 → c ∈ list_ascii_of_string (before_comma forwarded)) as Hsub.
    { intros c Hc. by apply trim_start_sub, trim_end_sub. }
    split; [| split; [| split; [| split]]].
    + intros Hin. by apply Hsub, before_comma_no_comma in Hin.
    + intros c Hc. apply Hsub in Hc. clear -Hc.
      induction forwarded as [| d s IH]; cbn in *; [done |].
      destruct (Ascii.eqb d ","); cbn in Hc; [by apply elem_of_nil in Hc |].
      apply elem_of_cons in Hc as [-> | Hc]; apply elem_of_cons; [by left | right].
      by apply IH.
    + intros c Hc. unfold trim in Hc.
      destruct (head (list_ascii_of_string (trim_start (before_comma forwarded)))) as [d|] eqn:Hd.
      * pose proof (trim_start_head _ _ Hd) as Hsp.
        rewrite (trim_end_head _ _ Hd Hsp) in Hc. by injection Hc as <-.
      * destruct (trim_start (before_comma forwarded)); done.
    + intros c. apply trim_end_last.
    + intros Hno Hhead Hlast. unfold trim.
      by rewrite (before_comma_id _ Hno), (trim_start_id _ Hhead), (trim_end_id _ Hlast).
Qed.

Lemma keyGenerator_key_witness :
  let req := {| method := "POST"; cookies := ∅; user := None;
                headers := {["x-forwarded-for" := " 203.0.113.7 , 10.0.0.1"]};
                ip := "10.0.0.1" |} in
  keyGenerator req = "203.0.113.7"
  ∧ ("," : ascii) ∉ list_ascii_of_string (keyGenerator req).
Proof.
  cbv zeta. split; [reflexivity |].
  apply (proj2 (keyGenerator_key
                  {| method := "POST"; cookies := ∅; user := None;
                     headers := {["x-forwarded-for" := " 203.0.113.7 , 10.0.0.1"]};
                     ip := "10.0.0.1" |})
           " 203.0.113.7 , 10.0.0.1").
  - reflexivity.
  - discriminate.
Defined.

(** X28 — the [retryAfter] of the 429 body counts the seconds left in the
    window, rounded up: that many seconds cover the rest of the window and
    one second less does not, so it is the least whole number of seconds
    that does; it is at least 1 exactly while the window is still open; and
    it is the number the message text spells out. *)
Theorem retryAfter_counts_down (info : rateLimitInfo) (now : Z) :
  ∃ retryAfter,
    field "retryAfter" (createRateLimitMessage info now) = Some (Js.VNum retryAfter)
    ∧ 1000 * (retryAfter - 1) < resetTime info - now ≤ 1000 * retryAfter
    ∧ (1 ≤ retryAfter ↔ now < resetTime info)
    ∧ (∀ seconds, resetTime info - now ≤ 1000 * seconds → retryAfter ≤ seconds)
    ∧ field "message" (createRateLimitMessage info now)
      = Some (Js.VStr ("You have exceeded the rate limit. Please try again in "
                       ++ pretty retryAfter ++ " seconds."))
    ∧ body_of (rateLimitHandler info now) = Some (createRateLimitMessage info now)
    ∧ status_of (rateLimitHandler info now) = Some 429.
Proof.
  exists (ceil_div (resetTime info - now) 1000).
  pose proof (ceil_div_spec (resetTime info - now) 1000 ltac:(lia)) as Hc.
  split; [reflexivity |]. split; [exact Hc |]. split; [lia |].
  split; [intros; lia |].
  repeat split.
Qed.

End RateLimiterExtra.

(** ** Client-side error queue *)

Module ErrorLoggerExtra.
Import ErrorLogger.

(** X29 — the error queue is a bounded first-in-first-out buffer: starting
    from a queue of at most [maxQueueSize] entries, after any number of
    [addToQueue] calls the queue holds exactly the most recent
    [maxQueueSize] entries of everything that was ever in it, in order, and
    so never more than [maxQueueSize]. *)
Theorem error_queue_keeps_latest {A : Type} (errorQueue infos : list A) :
  (length errorQueue ≤ maxQueueSize)%nat →
  addAll errorQueue infos
  = drop (length (errorQueue ++ infos) - maxQueueSize) (errorQueue ++ infos)
  ∧ (length (addAll errorQueue infos) ≤ maxQueueSize)%nat.
Proof.
  unfold addAll, maxQueueSize.
  revert errorQueue. induction infos as [| x infos IH]; intros q Hq.
  - cbn. rewrite app_nil_r. replace (length q - 50)%nat with 0%nat by lia. done.
  - cbn [fold_left].
    assert ((length (addToQueue q x) ≤ 50)%nat
            ∧ (addToQueue q x ++ infos)%list
              = drop (length (q ++ x :: infos)%list
                      - length (addToQueue q x ++ infos)%list)
                  (q ++ x :: infos)%list) as [Hlen Heq].
    { unfold addToQueue, maxQueueSize. cbv zeta.
      rewrite !length_app. cbn [length].
      destruct (50 <? length q + 1)%nat eqn:Hfull.
      - apply Nat.ltb_lt in Hfull.
        destruct q as [| y q]; [cbn in Hfull; lia |]. cbn [app tail length] in *.
        split; [rewrite length_app; cbn; lia |].
        rewrite !length_app. cbn [length].
        match goal with
        | |- _ = drop ?n _ => replace n with 1%nat by lia
        end.
        cbn. by rewrite <- app_assoc.
      - apply Nat.ltb_ge in Hfull. split; [rewrite length_app; cbn; lia |].
        rewrite !length_app. cbn [length].
        match goal with
        | |- _ = drop ?n _ => replace n with 0%nat by lia
        end.
        cbn. by rewrite <- app_assoc. }
    destruct (IH _ Hlen) as [IH1 IH2]. split; [| exact IH2].
    rewrite IH1. rewrite Heq at 2. rewrite drop_drop. f_equal.
    assert (length (addToQueue q x ++ infos)%list = length (q ++ x :: infos)%list
            ∨ (50 ≤ length (addToQueue q x ++ infos)%list
               ≤ length (q ++ x :: infos)%list)%nat) as Hcmp.
    { unfold addToQueue, maxQueueSize. cbv zeta.
      destruct (50 <? length (q ++ [x])%list)%nat eqn:Hfull.
      - apply Nat.ltb_lt in Hfull. rewrite length_app in Hfull. cbn in Hfull.
        right. destruct q; cbn in *; rewrite ?length_app; cbn;
          rewrite ?length_app; cbn; lia.
      - left. rewrite !length_app. cbn. lia. }
    lia.
Qed.

Lemma error_queue_keeps_latest_witness :
  addAll (seq 0 50) [50; 51; 52]%nat = seq 3 50
  ∧ (length (addAll (seq 0 50) [50; 51; 52]%nat) ≤ maxQueueSize)%nat.
Proof.
  destruct (error_queue_keeps_latest (seq 0 50) [50; 51; 52]%nat) as [H1 H2].
  - vm_compute. lia.
  - split; [rewrite H1; reflexivity | exact H2].
Defined.

End ErrorLoggerExtra.

(** ** Request validation *)

Module ValidateExtra.
Import Validate.

(** X30 — [validate] is all-or-nothing over the parts it was given schemas
    for.  When every failing [safeParse] reports at least one issue, it calls
    [next()] exactly when every supplied schema accepts its part, and then
    each checked part has been replaced by its parsed data while the others
    are untouched; otherwise it answers 400 with one entry per issue, those
    of the body first, then the query's, then the params'.  With a body
    schema alone it goes on exactly when [validateBody] does, with the same
    request. *)
Theorem validate_all_or_nothing {D : Type} (ss : schemas D) (req : data D) :
  let b := checked (body_schema ss) (body req) in
  let q := checked (query_schema ss) (query req) in
  let p := checked (params_schema ss) (params req) in
  (∀ r, r ∈ [b; q; p] → accepted r = false → issues_of r ≠ []) →
  (accepted b && accepted q && accepted p = true →
   validate ss req
   = Next {| body := data_of (body req) b; query := data_of (query req) q;
             params := data_of (params req) p |})
  ∧ (accepted b && accepted q && accepted p = false →
     ∃ errors,
       validate ss req = Status400 "Validation failed" errors
       ∧ errors ≠ []
       ∧ map entry_code errors = map code (issues_of b ++ issues_of q ++ issues_of p)
       ∧ map entry_message errors
         = map message (issues_of b ++ issues_of q ++ issues_of p)
       ∧ map field errors
         = map (λ i, join (path i)) (issues_of b ++ issues_of q ++ issues_of p))
  ∧ (∀ s, ss = {| body_schema := Some s; query_schema := None;
                  params_schema := None |} →
          ∀ req', validate ss req = Next req' ↔ validateBody s req = Next req').
Proof.
  cbv zeta. intros Hissues.
  assert (∀ r, r ∈ [checked (body_schema ss) (body req);
                    checked (query_schema ss) (query req);
                    checked (params_schema ss) (params req)] →
               ∀ issues, r = inr issues → (0 <? length issues)%nat = true) as Hpos.
  { intros r Hr issues ->. specialize (Hissues _ Hr eq_refl). cbn in Hissues.
    destruct issues; [done | reflexivity]. }
  assert (∀ (l1 l2 : list issue), (0 <? length l1)%nat = true →
            (0 <? length (l1 ++ l2))%nat = true) as Happ1.
  { intros [| i l1] l2; [done | reflexivity]. }
  assert (∀ (l1 l2 : list issue), (0 <? length l2)%nat = true →
            (0 <? length (l1 ++ l2))%nat = true) as Happ2.
  { intros l1 [| i l2] H; [done |]. rewrite length_app. cbn [length].
    apply Nat.ltb_lt. lia. }
  split; [| split].
  - destruct req as [rb rq rp], ss as [[sb|] [sq|] [sp|]];
      unfold validate, checked;
      cbn [body_schema query_schema params_schema body query params];
      repeat (match goal with
              | |- context [match ?s ?d with inl _ => _ | inr _ => _ end] =>
                  destruct (s d)
              end;
              cbn [accepted andb data_of body query params]);
      done.
  - destruct req as [rb rq rp], ss as [[sb|] [sq|] [sp|]];
      unfold validate, checked in *;
      cbn [body_schema query_schema params_schema body query params] in *;
      repeat (match goal with
              | |- context [match ?s ?d with inl _ => _ | inr _ => _ end] =>
                  let H := fresh "Hparse" in destruct (s d) eqn:H
              end;
              cbn [accepted andb data_of issues_of body query params]);
      try done;
      intros _;
      repeat match goal with
             | H : _ = inr ?l |- _ =>
                 lazymatch goal with
                 | P : (0 <? length l)%nat = true |- _ => fail
                 | _ =>
                     assert ((0 <? length l)%nat = true)
                       by (eapply Hpos; [| reflexivity];
                           rewrite !elem_of_cons; eauto)
                 end
             end;
      cbn [app]; rewrite ?app_nil_r, <- ?app_assoc;
      match goal with
      | |- context [(0 <? length ?l)%nat] =>
          let Hl := fresh "Hl" in
          assert ((0 <? length l)%nat = true) as Hl by auto using Happ1, Happ2;
          rewrite Hl;
          eexists; split; [reflexivity |]; split;
          [ intros Hnil; apply (f_equal length) in Hnil;
            rewrite length_map in Hnil; cbn [length] in Hnil;
            rewrite Hnil in Hl; discriminate Hl
          | rewrite !map_map; repeat split ]
      end.
  - intros s -> req'. destruct req as [rb rq rp].
    unfold validate, validateBody, respond, formatZodError, checked in *.
    cbn [body_schema query_schema params_schema body query params fst snd] in *.
    destruct (s rb) as [d | issues] eqn:Hs; [done |].
    assert ((0 <? length issues)%nat = true) as ->; [| done].
    eapply Hpos; [| reflexivity]. apply elem_of_cons. by left.
Qed.

Lemma validate_all_or_nothing_witness :
  let nonempty : schema string :=
    λ d, if Js.truthy_string d then inl d
         else inr [ {| path := ["email"]; message := "Required"; code := "too_small" |} ] in
  validate {| body_schema := Some nonempty; query_schema := None;
              params_schema := Some nonempty |}
    {| body := "a@b.c"; query := ""; params := "42" |}
  = Next {| body := "a@b.c"; query := ""; params := "42" |}.
Proof.
  cbv zeta.
  refine (proj1 (validate_all_or_nothing
                   {| body_schema :=
                        Some (λ d, if Js.truthy_string d then inl d
                                   else inr [ {| path := ["email"]; message := "Required";
                                                 code := "too_small" |} ]);
                      query_schema := None;
                      params_schema :=
                        Some (λ d, if Js.truthy_string d then inl d
                                   else inr [ {| path := ["email"]; message := "Required";
                                                 code := "too_small" |} ]) |}
                   {| body := "a@b.c"; query := ""; params := "42" |} _) _).
  - intros r Hr Hacc. vm_compute in Hr.
    repeat (apply elem_of_cons in Hr as [-> | Hr]; [discriminate Hacc |]).
    by apply elem_of_nil in Hr.
  - reflexivity.
Defined.

End ValidateExtra.
